(** * S3 bucket lifecycle configuration resource and S3 tag helpers

    A shallow embedding of

    - the lifecycle-configuration resource of the S3 service package
      ([resourceBucketLifecycleConfigurationCreate], [..Read], [..Update],
      [..Delete]), and
    - [aws/internal/keyvaluetags/s3_tags.go] ([S3BucketListTags],
      [S3BucketUpdateTags], [S3ObjectListTags], [S3ObjectUpdateTags]).

    Remote calls are modelled by explicit state passing: the state is the
    trace of requests issued so far, and the answers of the service are given
    by an oracle indexed by the position of the request in that trace, so
    that successive reads may see different values. *)

From stdpp Require Import base option list strings gmap fin_maps.
From Stdlib Require Import Ascii ZArith Lia.


(* ===================================================================== *)
(** * Errors and diagnostics *)
(* ===================================================================== *)

(** Go [error] values, as far as the code tells them apart: an
    [awserr.Error] carries a code and a message; [fmt.Errorf] without [%w]
    gives a plain message; [fmt.Errorf] with [%w] keeps the wrapped error;
    [*resource.TimeoutError] is what the retry helper may hand back when its
    deadline passes. *)
Inductive error : Type :=
  | awserr (Code Message : string)
  | errorString (s : string)
  | wrapError (s : string) (inner : error)
  | TimeoutError.

(** [err.Error()] *)
Definition Error (e : error) : string :=
  match e with
  | awserr c m => c +:+ ": " +:+ m
  | errorString s => s
  | wrapError s _ => s
  | TimeoutError => "timeout while waiting for state to become 'success'"
  end.

(** [fmt.Errorf(prefix + "%w", err)] *)
Definition Errorf_w (prefix : string) (err : error) : error :=
  wrapError (prefix +:+ Error err) err.

(** [errors.As(err, &awsErr)]: the code of the first [awserr.Error] found
    when unwrapping. *)
Fixpoint awsCode (e : error) : option string :=
  match e with
  | awserr c _ => Some c
  | wrapError _ inner => awsCode inner
  | errorString _ | TimeoutError => None
  end.

(** [tfawserr.ErrCodeEquals(err, codes...)]; [err] may be nil ([None]). *)
Definition ErrCodeEquals (err : option error) (codes : list string) : bool :=
  match err ≫= awsCode with
  | Some c => bool_decide (c ∈ codes)
  | None => false
  end.

(** [awsbase.IsAWSErr(err, code, "")]: with the empty message every message
    matches, so only the code is compared. *)
Definition IsAWSErr (err : option error) (code : string) : bool :=
  match err ≫= awsCode with
  | Some c => bool_decide (c = code)
  | None => false
  end.

(** Modelled from the spec: [tfresource.TimedOut] is defined in the
    repository's [tfresource] package, which is not embedded here. It tells
    whether [err] reports that the wait ran into its total timeout. *)
Definition TimedOut (err : option error) : bool :=
  match err with
  | Some TimeoutError => true
  | _ => false
  end.

(** Modelled from the spec: the constant is declared in another file of the
    S3 package; its value is the error code "no such lifecycle
    configuration" of the service. *)
Definition ErrCodeNoSuchLifecycleConfiguration : string := "NoSuchLifecycleConfiguration".

(** [s3.ErrCodeNoSuchBucket] of the SDK. *)
Definition ErrCodeNoSuchBucket : string := "NoSuchBucket".

(** The two codes the resource treats as "not found". *)
Definition notFoundCodes : list string :=
  [ErrCodeNoSuchLifecycleConfiguration; ErrCodeNoSuchBucket].

(** Go functions returning [(T, error)] where the value is only used when the
    error is nil. *)
Inductive res (A : Type) : Type :=
  | OK (a : A)
  | Failed (e : error).
Arguments OK {A} a.
Arguments Failed {A} e.

(** [x, err := e; if err != nil { return err }; k] *)
Notation "x <-? e ; k" :=
  (match e with
   | OK x => k
   | Failed err => Failed err
   end)
  (at level 100, e at next level, k at level 200, right associativity,
   format "'[v' x  <-?  e ; '/' k ']'").

(** [diag.Diagnostics]: [nil] is success, [diag.Errorf] and [diag.FromErr]
    give one error diagnostic. *)
Record Diagnostic : Type := { Summary : string }.
Definition Diagnostics : Type := list Diagnostic.

Definition diag_Errorf (msg : string) : Diagnostics := [ {| Summary := msg |} ].
Definition diag_FromErr (e : error) : Diagnostics := diag_Errorf (Error e).
Definition HasError (ds : Diagnostics) : bool :=
  match ds with
  | [] => false
  | _ :: _ => true
  end.

(** [sub] occurs in [s]. *)
Definition contains (sub s : string) : Prop := ∃ pre post, s = pre +:+ sub +:+ post.

(** [resource.RetryError], built by [resource.RetryableError] and
    [resource.NonRetryableError]. *)
Record RetryError : Type := { Err : error; Retryable : bool }.
Definition RetryableError (e : error) : RetryError := {| Err := e; Retryable := true |}.
Definition NonRetryableError (e : error) : RetryError := {| Err := e; Retryable := false |}.

(* ===================================================================== *)
(** * The S3 connection *)
(* ===================================================================== *)

Section Connection.
Context {ApiRule : Type}.

Record PutBucketLifecycleConfigurationInput : Type := {
  put_Bucket : string;
  put_ExpectedBucketOwner : option string;
  put_Rules : list ApiRule
}.

Record GetBucketLifecycleConfigurationInput : Type := {
  get_Bucket : string;
  get_ExpectedBucketOwner : option string
}.

Record DeleteBucketLifecycleInput : Type := {
  del_Bucket : string;
  del_ExpectedBucketOwner : option string
}.

(** [s3.GetBucketLifecycleConfigurationOutput] *)
Record GetBucketLifecycleConfigurationOutput : Type := { Rules : list ApiRule }.

(** A request sent to the service. *)
Inductive Call : Type :=
  | PutBucketLifecycleConfiguration (input : PutBucketLifecycleConfigurationInput)
  | GetBucketLifecycleConfiguration (input : GetBucketLifecycleConfigurationInput)
  | DeleteBucketLifecycle (input : DeleteBucketLifecycleInput).

(** The service seen from the client: what each request returns when it is
    the [n]-th request of the run (counting from 0). The SDK always hands
    back an allocated output next to the error. *)
Record S3Conn : Type := {
  onPut : nat -> PutBucketLifecycleConfigurationInput -> option error;
  onGet : nat -> GetBucketLifecycleConfigurationInput ->
          GetBucketLifecycleConfigurationOutput * option error;
  onDelete : nat -> DeleteBucketLifecycleInput -> option error
}.

(** Issuing a request appends it to the trace. *)
Definition PutBucketLifecycleConfigurationWithContext (conn : S3Conn)
    (input : PutBucketLifecycleConfigurationInput) (tr : list Call)
    : option error * list Call :=
  (onPut conn (length tr) input, tr ++ [PutBucketLifecycleConfiguration input]).

Definition GetBucketLifecycleConfigurationWithContext (conn : S3Conn)
    (input : GetBucketLifecycleConfigurationInput) (tr : list Call)
    : (GetBucketLifecycleConfigurationOutput * option error) * list Call :=
  (onGet conn (length tr) input, tr ++ [GetBucketLifecycleConfiguration input]).

Definition DeleteBucketLifecycleWithContext (conn : S3Conn)
    (input : DeleteBucketLifecycleInput) (tr : list Call)
    : option error * list Call :=
  (onDelete conn (length tr) input, tr ++ [DeleteBucketLifecycle input]).
End Connection.

Arguments PutBucketLifecycleConfigurationInput : clear implicits.
Arguments GetBucketLifecycleConfigurationOutput : clear implicits.
Arguments Call : clear implicits.
Arguments S3Conn : clear implicits.

(** [aws.String(v)] guarded by [if v != ""]: the optional request field. *)
Definition optionalString (v : string) : option string :=
  if decide (v = "") then None else Some v.

(* ===================================================================== *)
(** * The retry helper of the plugin SDK *)
(* ===================================================================== *)

(** [resource.RetryContext(ctx, timeout, f)] runs [f] again and again while
    it answers with a retryable error. The timeout is modelled by [budget],
    the number of attempts that fit before the deadline (each attempt of the
    read loop sleeps, so only finitely many fit). The closure [f] works on
    the variables it captures, passed here as the state [s].

    What the helper returns when the deadline passes is decided by the SDK,
    not by this repository: it is the parameter [deadline], applied to the
    last retryable error seen (if any). The SDK's own choice is
    [lastErrorFirst] below. *)
Fixpoint RetryContext {St : Type} (deadline : option error -> error)
    (budget : nat) (f : St -> option RetryError * St)
    (resultErr : option error) (s : St) : option error * St :=
  match budget with
  | 0 => (Some (deadline resultErr), s)
  | S budget' =>
      match f s with
      | (None, s') => (None, s')
      | (Some rerr, s') =>
          if Retryable rerr
          then RetryContext deadline budget' f (Some (Err rerr)) s'
          else (Some (Err rerr), s')
      end
  end.

(* ===================================================================== *)
(** * The resource *)
(* ===================================================================== *)

(** [schema.ResourceData], restricted to the fields of this resource's
    schema. [rule] holds the user-facing rule blocks. *)
Record ResourceData (TfRule : Type) : Type := {
  Id : string;
  IsNewResource : bool;
  bucket : string;
  expected_bucket_owner : string;
  rule : list TfRule
}.
Arguments Id {TfRule} _.
Arguments IsNewResource {TfRule} _.
Arguments bucket {TfRule} _.
Arguments expected_bucket_owner {TfRule} _.
Arguments rule {TfRule} _.

Definition SetId {TfRule} (d : ResourceData TfRule) (v : string) : ResourceData TfRule :=
  {| Id := v; IsNewResource := IsNewResource d; bucket := bucket d;
     expected_bucket_owner := expected_bucket_owner d; rule := rule d |}.

Definition Set_bucket {TfRule} (d : ResourceData TfRule) (v : string) : ResourceData TfRule :=
  {| Id := Id d; IsNewResource := IsNewResource d; bucket := v;
     expected_bucket_owner := expected_bucket_owner d; rule := rule d |}.

Definition Set_expected_bucket_owner {TfRule} (d : ResourceData TfRule) (v : string)
    : ResourceData TfRule :=
  {| Id := Id d; IsNewResource := IsNewResource d; bucket := bucket d;
     expected_bucket_owner := v; rule := rule d |}.

(** [d.Set("rule", v)] reports an error only for a value that does not fit
    the schema; here [v] has the schema's type, so it is always stored. *)
Definition Set_rule {TfRule} (d : ResourceData TfRule) (v : list TfRule)
    : option error * ResourceData TfRule :=
  (None, {| Id := Id d; IsNewResource := IsNewResource d; bucket := bucket d;
            expected_bucket_owner := expected_bucket_owner d; rule := v |}).

(** A Go call either returns or stops on a nil pointer dereference. *)
Inductive outcome (A : Type) : Type :=
  | Returns (a : A)
  | Panics.
Arguments Returns {A} a.
Arguments Panics {A}.

(** The functions the resource calls that are defined in other files of the
    repository (the rule mapper, the identity codec, [verify.RetryOnAWSCode]
    and the wait for the rules' status), together with the one choice the
    plugin SDK makes for [RetryContext]. They are not embedded here:
    everything below is stated for any implementation of them. *)
Class Collaborators (TfRule ApiRule : Type) : Type := {
  ExpandLifecycleRules : list TfRule -> res (list ApiRule);
  FlattenLifecycleRules : list ApiRule -> list TfRule;
  CreateResourceID : string -> string -> string;
  ParseResourceID : string -> res (string * string);
  RetryOnAWSCode :
    string -> (list (Call ApiRule) -> option error * list (Call ApiRule)) ->
    list (Call ApiRule) -> option error * list (Call ApiRule);
  waitForLifecycleConfigurationRulesStatus :
    S3Conn ApiRule -> string -> string -> list ApiRule ->
    list (Call ApiRule) -> option error * list (Call ApiRule);
  retryDeadline : option error -> error
}.

Section Resource.
Context {TfRule ApiRule : Type} `{!EqDecision ApiRule}
        `{!Collaborators TfRule ApiRule}.

Local Abbreviation trace := (list (Call ApiRule)).
Local Abbreviation Output := (GetBucketLifecycleConfigurationOutput ApiRule).

Global Instance Output_eq_dec : EqDecision Output.
Proof. solve_decision. Defined.

(** [reflect.DeepEqual] on the two dereferenced outputs. *)
Definition DeepEqual (a b : Output) : bool := bool_decide (a = b).

(** The variables [lastOutput] and [output] of the read function; both
    start as nil pointers. *)
Record ReadVars : Type := {
  lastOutput : option Output;
  output : option Output
}.

Definition notStabilized : error :=
  errorString "bucket lifecycle configuration has not stablized; trying again".

(** The closure handed to [RetryContext] by the read function. *)
Definition readAttempt (conn : S3Conn ApiRule) (isNew : bool)
    (input : GetBucketLifecycleConfigurationInput)
    (s : ReadVars * trace) : option RetryError * (ReadVars * trace) :=
  let '(vars, tr) := s in
  let '((out, err), tr) := GetBucketLifecycleConfigurationWithContext conn input tr in
  let vars := {| lastOutput := lastOutput vars; output := Some out |} in
  match err with
  | Some e =>
      if isNew && ErrCodeEquals (Some e) notFoundCodes
      then (Some (RetryableError e), (vars, tr))
      else (Some (NonRetryableError e), (vars, tr))
  | None =>
      match lastOutput vars with
      | Some last =>
          if negb (DeepEqual last out)
          then (Some (RetryableError notStabilized),
                ({| lastOutput := Some out; output := Some out |}, tr))
          else (None, (vars, tr))
      | None =>
          (Some (RetryableError notStabilized),
           ({| lastOutput := Some out; output := Some out |}, tr))
      end
  end.

(** The stabilization loop of the read function (lines 303 to 326). *)
Definition readLoop (budget : nat) (conn : S3Conn ApiRule) (isNew : bool)
    (input : GetBucketLifecycleConfigurationInput) (tr : trace)
    : option error * (ReadVars * trace) :=
  RetryContext retryDeadline budget (readAttempt conn isNew input) None
    ({| lastOutput := None; output := None |}, tr).

Definition resourceBucketLifecycleConfigurationRead (budget : nat)
    (conn : S3Conn ApiRule) (d : ResourceData TfRule) (tr : trace)
    : outcome (Diagnostics * ResourceData TfRule) * trace :=
  match ParseResourceID (Id d) with
  | Failed err => (Returns (diag_FromErr err, d), tr)
  | OK (bucket, expectedBucketOwner) =>
      let input := {| get_Bucket := bucket;
                      get_ExpectedBucketOwner := optionalString expectedBucketOwner |} in
      let '(err, (vars, tr)) := readLoop budget conn (IsNewResource d) input tr in
      let '(output, err, tr) :=
        if TimedOut err
        then let '((out, err), tr) :=
               GetBucketLifecycleConfigurationWithContext conn input tr in
             (Some out, err, tr)
        else (output vars, err, tr) in
      if negb (IsNewResource d) && ErrCodeEquals err notFoundCodes
      then (Returns ([], SetId d ""), tr)
      else
        match err with
        | Some e =>
            (Returns (diag_Errorf ("error getting S3 Bucket Lifecycle Configuration ("
                                   +:+ Id d +:+ "): " +:+ Error e), d), tr)
        | None =>
            let d := Set_bucket d bucket in
            let d := Set_expected_bucket_owner d expectedBucketOwner in
            match output with
            | None => (Panics, tr)
            | Some out =>
                match Set_rule d (FlattenLifecycleRules (Rules out)) with
                | (Some e, d) =>
                    (Returns (diag_Errorf ("error setting rule: " +:+ Error e), d), tr)
                | (None, d) => (Returns ([], d), tr)
                end
            end
        end
  end.

Definition resourceBucketLifecycleConfigurationCreate (budget : nat)
    (conn : S3Conn ApiRule) (d : ResourceData TfRule) (tr : trace)
    : outcome (Diagnostics * ResourceData TfRule) * trace :=
  let bucket := bucket d in
  let expectedBucketOwner := expected_bucket_owner d in
  match ExpandLifecycleRules (rule d) with
  | Failed err =>
      (Returns (diag_Errorf ("error creating S3 Lifecycle Configuration for bucket ("
                             +:+ bucket +:+ "): " +:+ Error err), d), tr)
  | OK rules =>
      let input := {| put_Bucket := bucket;
                      put_ExpectedBucketOwner := optionalString expectedBucketOwner;
                      put_Rules := rules |} in
      let '(err, tr) :=
        RetryOnAWSCode ErrCodeNoSuchBucket
          (PutBucketLifecycleConfigurationWithContext conn input) tr in
      match err with
      | Some e =>
          (Returns (diag_Errorf ("error creating S3 Lifecycle Configuration for bucket ("
                                 +:+ bucket +:+ "): " +:+ Error e), d), tr)
      | None =>
          let d := SetId d (CreateResourceID bucket expectedBucketOwner) in
          let '(err, tr) :=
            waitForLifecycleConfigurationRulesStatus conn bucket expectedBucketOwner
              rules tr in
          match err with
          | Some e =>
              (Returns (diag_Errorf
                 ("error waiting for S3 Lifecycle Configuration for bucket (" +:+ Id d
                  +:+ ") to reach expected rules status after update: " +:+ Error e), d),
               tr)
          | None => resourceBucketLifecycleConfigurationRead budget conn d tr
          end
      end
  end.

Definition resourceBucketLifecycleConfigurationUpdate (budget : nat)
    (conn : S3Conn ApiRule) (d : ResourceData TfRule) (tr : trace)
    : outcome (Diagnostics * ResourceData TfRule) * trace :=
  match ParseResourceID (Id d) with
  | Failed err => (Returns (diag_FromErr err, d), tr)
  | OK (bucket, expectedBucketOwner) =>
      match ExpandLifecycleRules (rule d) with
      | Failed err =>
          (Returns (diag_Errorf ("error updating S3 Bucket Lifecycle Configuration rule: "
                                 +:+ Error err), d), tr)
      | OK rules =>
          let input := {| put_Bucket := bucket;
                          put_ExpectedBucketOwner := optionalString expectedBucketOwner;
                          put_Rules := rules |} in
          let '(err, tr) :=
            RetryOnAWSCode ErrCodeNoSuchLifecycleConfiguration
              (PutBucketLifecycleConfigurationWithContext conn input) tr in
          match err with
          | Some e =>
              (Returns (diag_Errorf ("error updating S3 Bucket Lifecycle Configuration ("
                                     +:+ Id d +:+ "): " +:+ Error e), d), tr)
          | None =>
              let '(err, tr) :=
                waitForLifecycleConfigurationRulesStatus conn bucket expectedBucketOwner
                  rules tr in
              match err with
              | Some e =>
                  (Returns (diag_Errorf
                     ("error waiting for S3 Lifecycle Configuration for bucket (" +:+ Id d
                      +:+ ") to reach expected rules status after update: " +:+ Error e), d),
                   tr)
              | None => resourceBucketLifecycleConfigurationRead budget conn d tr
              end
          end
      end
  end.

Definition resourceBucketLifecycleConfigurationDelete
    (conn : S3Conn ApiRule) (d : ResourceData TfRule) (tr : trace)
    : Diagnostics * trace :=
  match ParseResourceID (Id d) with
  | Failed err => (diag_FromErr err, tr)
  | OK (bucket, expectedBucketOwner) =>
      let input := {| del_Bucket := bucket;
                      del_ExpectedBucketOwner := optionalString expectedBucketOwner |} in
      let '(err, tr) := DeleteBucketLifecycleWithContext conn input tr in
      if ErrCodeEquals err notFoundCodes
      then ([], tr)
      else
        match err with
        | Some e =>
            (diag_Errorf ("error deleting S3 Bucket Lifecycle Configuration ("
                          +:+ Id d +:+ "): " +:+ Error e), tr)
        | None => ([], tr)
        end
  end.
(** The request the read function builds from a parsed identity. *)
Definition getInput (bucket expectedBucketOwner : string)
    : GetBucketLifecycleConfigurationInput :=
  {| get_Bucket := bucket; get_ExpectedBucketOwner := optionalString expectedBucketOwner |}.

(** The resource data after a successful read of [out]. *)
Definition readInto (d : ResourceData TfRule) (bucket expectedBucketOwner : string)
    (out : GetBucketLifecycleConfigurationOutput ApiRule) : ResourceData TfRule :=
  {| Id := Id d; IsNewResource := IsNewResource d; bucket := bucket;
     expected_bucket_owner := expectedBucketOwner;
     rule := FlattenLifecycleRules (Rules out) |}.

(** The read number [k] of the run failed with a not-found error on a new
    resource: the only reads the loop skips over. *)
Definition skippedRead (conn : S3Conn ApiRule) (isNew : bool)
    (input : GetBucketLifecycleConfigurationInput) (k : nat) : Prop :=
  ∃ out e, onGet conn k input = (out, Some e)
           ∧ isNew = true ∧ ErrCodeEquals (Some e) notFoundCodes = true.

End Resource.

(* ===================================================================== *)
(** * Tags: [aws/internal/keyvaluetags/s3_tags.go] *)
(* ===================================================================== *)

(** [KeyValueTags] is a Go map from tag key to tag value. *)
Abbreviation KeyValueTags := (gmap string string).

(** [[]*s3.Tag] *)
Abbreviation TagSet := (list (string * string)).

(** Modelled from the spec: [New] is defined in [key_value_tags.go], which
    is not embedded here. It builds the tag map of a configuration value; a
    nil value gives the empty map. *)
Definition New (i : option KeyValueTags) : KeyValueTags := default ∅ i.

(** Modelled from the spec: [KeyValueTags.S3Tags] is generated code that is
    not embedded here. It lists the entries of the map as S3 tags. A Go map
    has no iteration order; the order chosen here is the one of
    [map_to_list]. *)
Definition S3Tags (tags : KeyValueTags) : TagSet := map_to_list tags.

(** Modelled from the spec: [S3KeyValueTags] is generated code that is not
    embedded here. It reads a list of S3 tags into a map, a later entry for
    a key replacing an earlier one. *)
Definition S3KeyValueTags (tags : TagSet) : KeyValueTags :=
  foldl (fun m kv => <[kv.1 := kv.2]> m) ∅ tags.

(** Modelled from the spec: [KeyValueTags.Removed] is defined in
    [key_value_tags.go], which is not embedded here. Section 4.4 ("minus"):
    the entries of [tags] whose key is not a key of [newTags]. *)
Definition Removed (tags newTags : KeyValueTags) : KeyValueTags :=
  filter (fun kv => newTags !! kv.1 = None) tags.

(** Modelled from the spec: [KeyValueTags.Merge] is defined in
    [key_value_tags.go], which is not embedded here. Section 4.4 ("union"):
    the union of both maps, an entry of [mergeTags] replacing one of [tags]
    with the same key. *)
Definition Merge (tags mergeTags : KeyValueTags) : KeyValueTags :=
  mergeTags ∪ tags.

(** The error a failed write comes back as. *)
Definition wrapped (prefix : string) (err : option error) : option error :=
  match err with
  | Some e => Some (Errorf_w prefix e)
  | None => None
  end.

Section Tags.
(** Which keys belong to AWS itself (system tags) is decided in
    [key_value_tags.go], which is not embedded here: it is the parameter
    [isAwsKey]. *)
Context (isAwsKey : string -> bool).

(** Modelled from the spec: [KeyValueTags.IgnoreAws] is defined in
    [key_value_tags.go], which is not embedded here. It keeps the entries
    whose key does not belong to AWS (the user's tags). *)
Definition IgnoreAws (tags : KeyValueTags) : KeyValueTags :=
  filter (fun kv => isAwsKey kv.1 = false) tags.

(** A tagging request sent to the service. *)
Inductive TagCall : Type :=
  | GetBucketTagging (Bucket : string)
  | PutBucketTagging (Bucket : string) (Tagging : TagSet)
  | DeleteBucketTagging (Bucket : string)
  | GetObjectTagging (Bucket Key : string)
  | PutObjectTagging (Bucket Key : string) (Tagging : TagSet)
  | DeleteObjectTagging (Bucket Key : string).

(** The tagging operations of the service: the answer to a request that is
    the [n]-th of the run. *)
Record TagConn : Type := {
  onGetBucketTagging : nat -> string -> TagSet * option error;
  onPutBucketTagging : nat -> string -> TagSet -> option error;
  onDeleteBucketTagging : nat -> string -> option error;
  onGetObjectTagging : nat -> string -> string -> TagSet * option error;
  onPutObjectTagging : nat -> string -> string -> TagSet -> option error;
  onDeleteObjectTagging : nat -> string -> string -> option error
}.

Definition S3BucketListTags (conn : TagConn) (identifier : string) (tr : list TagCall)
    : (KeyValueTags * option error) * list TagCall :=
  let '(TagSet_, err) := onGetBucketTagging conn (length tr) identifier in
  let tr := tr ++ [GetBucketTagging identifier] in
  if IsAWSErr err "NoSuchTagSet"
  then ((New None, None), tr)
  else
    match err with
    | Some e => ((New None, Some e), tr)
    | None => ((S3KeyValueTags TagSet_, None), tr)
    end.

Definition S3BucketUpdateTags (conn : TagConn) (identifier : string)
    (oldTagsMap newTagsMap : option KeyValueTags) (tr : list TagCall)
    : option error * list TagCall :=
  let oldTags := New oldTagsMap in
  let newTags := New newTagsMap in
  let '((allTags, err), tr) := S3BucketListTags conn identifier tr in
  match err with
  | Some e =>
      (Some (Errorf_w ("error listing resource tags (" +:+ identifier +:+ "): ") e), tr)
  | None =>
      let sysTags := Removed allTags (IgnoreAws allTags) in
      if bool_decide (0 < size newTags + size sysTags)
      then
        let Tagging := S3Tags (Merge newTags sysTags) in
        let err := onPutBucketTagging conn (length tr) identifier Tagging in
        let tr := tr ++ [PutBucketTagging identifier Tagging] in
        match err with
        | Some e =>
            (Some (Errorf_w ("error setting resource tags (" +:+ identifier +:+ "): ") e), tr)
        | None => (None, tr)
        end
      else if bool_decide (0 < size oldTags) && bool_decide (size sysTags = 0)
      then
        let err := onDeleteBucketTagging conn (length tr) identifier in
        let tr := tr ++ [DeleteBucketTagging identifier] in
        match err with
        | Some e =>
            (Some (Errorf_w ("error deleting resource tags (" +:+ identifier +:+ "): ") e), tr)
        | None => (None, tr)
        end
      else (None, tr)
  end.

Definition S3ObjectListTags (conn : TagConn) (bucket key : string) (tr : list TagCall)
    : (KeyValueTags * option error) * list TagCall :=
  let '(TagSet_, err) := onGetObjectTagging conn (length tr) bucket key in
  let tr := tr ++ [GetObjectTagging bucket key] in
  match err with
  | Some e => ((New None, Some e), tr)
  | None => ((S3KeyValueTags TagSet_, None), tr)
  end.

Definition S3ObjectUpdateTags (conn : TagConn) (bucket key : string)
    (oldTagsMap newTagsMap : option KeyValueTags) (tr : list TagCall)
    : option error * list TagCall :=
  let oldTags := New oldTagsMap in
  let newTags := New newTagsMap in
  if bool_decide (0 < size newTags)
  then
    let Tagging := S3Tags (IgnoreAws newTags) in
    let err := onPutObjectTagging conn (length tr) bucket key Tagging in
    let tr := tr ++ [PutObjectTagging bucket key Tagging] in
    match err with
    | Some e =>
        (Some (Errorf_w ("error setting resource tags (" +:+ bucket +:+ "/" +:+ key +:+ "): ")
                 e), tr)
    | None => (None, tr)
    end
  else if bool_decide (0 < size oldTags)
  then
    let err := onDeleteObjectTagging conn (length tr) bucket key in
    let tr := tr ++ [DeleteObjectTagging bucket key] in
    match err with
    | Some e =>
        (Some (Errorf_w ("error deleting resource tags (" +:+ bucket +:+ "/" +:+ key +:+ "): ")
                 e), tr)
    | None => (None, tr)
    end
  else (None, tr).
End Tags.

(* ===================================================================== *)
(** * Resource identity codec *)
(* ===================================================================== *)

Module Codec.
Section Codec.
(** The reserved separator of the identity string. *)
Context (resourceIDSeparator : ascii).

(** Whether the separator occurs in [s]. *)
Fixpoint hasSeparator (s : string) : bool :=
  match s with
  | EmptyString => false
  | String c rest => bool_decide (c = resourceIDSeparator) || hasSeparator rest
  end.

(** Cuts [s] at its first separator. *)
Fixpoint cutAtSeparator (s : string) : option (string * string) :=
  match s with
  | EmptyString => None
  | String c rest =>
      if bool_decide (c = resourceIDSeparator)
      then Some (EmptyString, rest)
      else match cutAtSeparator rest with
           | Some (before, after) => Some (String c before, after)
           | None => None
           end
  end.

(** Modelled from the spec: [CreateResourceID] is called by the resource but
    defined in a file that is not embedded here. Section 4.2: the bucket name
    and the optional owner account id are serialized as one string with a
    reserved separator; the separator is written whether or not the owner is
    present, since an id without separator is malformed (section 8). *)
Definition CreateResourceID (bucket expectedBucketOwner : string) : string :=
  bucket +:+ String resourceIDSeparator expectedBucketOwner.

Definition FormatError (id : string) : error :=
  errorString ("unexpected format for ID (" +:+ id +:+ ")").

(** Modelled from the spec: [ParseResourceID] is called by the resource but
    defined in a file that is not embedded here. Section 4.2: it fails with a
    format error when the id does not have the separator-delimited shape
    (a non-empty bucket, one separator, the owner), and gives the empty
    string for an absent owner. *)
Definition ParseResourceID (id : string) : res (string * string) :=
  match cutAtSeparator id with
  | None => Failed (FormatError id)
  | Some (bucket, expectedBucketOwner) =>
      if bool_decide (bucket = EmptyString) || hasSeparator expectedBucketOwner
      then Failed (FormatError id)
      else OK (bucket, expectedBucketOwner)
  end.

Definition isDigit (c : ascii) : bool :=
  bool_decide (48 ≤ nat_of_ascii c ≤ 57)%nat.

Fixpoint allDigits (s : string) : bool :=
  match s with
  | EmptyString => true
  | String c rest => isDigit c && allDigits rest
  end.

(** A bucket name as the schema takes it (1 to 63 characters), free of the
    reserved separator. *)
Definition validBucket (b : string) : bool :=
  bool_decide (1 ≤ String.length b ≤ 63)%nat && negb (hasSeparator b).

(** An owner account id: absent (empty) or twelve digits, free of the
    reserved separator. *)
Definition validOwner (o : string) : bool :=
  (bool_decide (o = EmptyString)
   || (bool_decide (String.length o = 12%nat) && allDigits o))
  && negb (hasSeparator o).
End Codec.
End Codec.

(* ===================================================================== *)
(** * Rule mapper *)
(* ===================================================================== *)

Module RuleMapper.

(** ** The user-facing rule block

    The shape is the schema of the resource (lines 49 to 243): a block with
    [MaxItems: 1] is an option, a nullable integer is an option, a plain
    integer or string holds its zero value when it is not set. *)

Record tf_abort_incomplete_multipart_upload : Type := {
  days_after_initiation : Z
}.

Record tf_expiration : Type := {
  expiration_date : string;
  expiration_days : Z;
  expired_object_delete_marker : bool
}.

Record tf_and : Type := {
  and_object_size_greater_than : Z;
  and_object_size_less_than : Z;
  and_prefix : string;
  and_tags : gmap string string
}.

Record tf_filter : Type := {
  filter_and : option tf_and;
  filter_object_size_greater_than : option Z;
  filter_object_size_less_than : option Z;
  filter_prefix : string;
  filter_tag : option (string * string)
}.

Record tf_noncurrent_version_expiration : Type := {
  nve_newer_noncurrent_versions : option Z;
  nve_noncurrent_days : Z
}.

Record tf_noncurrent_version_transition : Type := {
  nvt_newer_noncurrent_versions : option Z;
  nvt_noncurrent_days : Z;
  nvt_storage_class : string
}.

Record tf_transition : Type := {
  transition_date : string;
  transition_days : Z;
  transition_storage_class : string
}.

Record tf_rule : Type := {
  rule_abort_incomplete_multipart_upload : option tf_abort_incomplete_multipart_upload;
  rule_expiration : option tf_expiration;
  rule_filter : option tf_filter;
  rule_id : string;
  rule_noncurrent_version_expiration : option tf_noncurrent_version_expiration;
  rule_noncurrent_version_transition : list tf_noncurrent_version_transition;
  rule_prefix : string;
  rule_status : string;
  rule_transition : list tf_transition
}.

(** ** The rule of the service API ([s3.LifecycleRule] of the SDK) *)

Record AbortIncompleteMultipartUpload : Type := {
  DaysAfterInitiation : option Z
}.

Record LifecycleExpiration : Type := {
  Date : option string;
  Days : option Z;
  ExpiredObjectDeleteMarker : option bool
}.

Record LifecycleRuleAndOperator : Type := {
  And_ObjectSizeGreaterThan : option Z;
  And_ObjectSizeLessThan : option Z;
  And_Prefix : option string;
  And_Tags : list (string * string)
}.

Record LifecycleRuleFilter : Type := {
  And : option LifecycleRuleAndOperator;
  ObjectSizeGreaterThan : option Z;
  ObjectSizeLessThan : option Z;
  Filter_Prefix : option string;
  Tag : option (string * string)
}.

Record NoncurrentVersionExpiration : Type := {
  NVE_NewerNoncurrentVersions : option Z;
  NVE_NoncurrentDays : option Z
}.

Record NoncurrentVersionTransition : Type := {
  NVT_NewerNoncurrentVersions : option Z;
  NVT_NoncurrentDays : option Z;
  NVT_StorageClass : option string
}.

Record Transition : Type := {
  Transition_Date : option string;
  Transition_Days : option Z;
  Transition_StorageClass : option string
}.

Record LifecycleRule : Type := {
  Rule_AbortIncompleteMultipartUpload : option AbortIncompleteMultipartUpload;
  Expiration : option LifecycleExpiration;
  Filter : option LifecycleRuleFilter;
  ID : option string;
  Rule_NoncurrentVersionExpiration : option NoncurrentVersionExpiration;
  NoncurrentVersionTransitions : list NoncurrentVersionTransition;
  Prefix : option string;
  Status : option string;
  Transitions : list Transition
}.

#[global] Instance AbortIncompleteMultipartUpload_eq_dec :
  EqDecision AbortIncompleteMultipartUpload.
Proof. solve_decision. Defined.
#[global] Instance LifecycleExpiration_eq_dec : EqDecision LifecycleExpiration.
Proof. solve_decision. Defined.
#[global] Instance LifecycleRuleAndOperator_eq_dec : EqDecision LifecycleRuleAndOperator.
Proof. solve_decision. Defined.
#[global] Instance LifecycleRuleFilter_eq_dec : EqDecision LifecycleRuleFilter.
Proof. solve_decision. Defined.
#[global] Instance NoncurrentVersionExpiration_eq_dec : EqDecision NoncurrentVersionExpiration.
Proof. solve_decision. Defined.
#[global] Instance NoncurrentVersionTransition_eq_dec : EqDecision NoncurrentVersionTransition.
Proof. solve_decision. Defined.
#[global] Instance Transition_eq_dec : EqDecision Transition.
Proof. solve_decision. Defined.
#[global] Instance LifecycleRule_eq_dec : EqDecision LifecycleRule.
Proof. solve_decision. Defined.

(** ** Small conversions between "zero value means unset" and pointers *)

Definition stringPtr (s : string) : option string :=
  if decide (s = EmptyString) then None else Some s.

Definition intPtr (n : Z) : option Z :=
  if decide (n = 0%Z) then None else Some n.

Definition stringValue (p : option string) : string := default EmptyString p.
Definition intValue (p : option Z) : Z := default 0%Z p.
Definition boolValue (p : option bool) : bool := default false p.

(** ** Validation (section 4.1) *)

Definition countTrue (bs : list bool) : nat := length (filter (fun b => b = true) bs).

(** How many of date, days and a true expired-object marker are set. *)
Definition expirationFieldsSet (e : tf_expiration) : nat :=
  countTrue [negb (bool_decide (expiration_date e = EmptyString));
             negb (bool_decide (expiration_days e = 0%Z));
             expired_object_delete_marker e].

(** How many sub-fields of [filter.and] are set. *)
Definition andFieldsSet (a : tf_and) : nat :=
  countTrue [negb (bool_decide (and_object_size_greater_than a = 0%Z));
             negb (bool_decide (and_object_size_less_than a = 0%Z));
             negb (bool_decide (and_prefix a = EmptyString));
             negb (bool_decide (and_tags a = ∅))].

(** Object-size bounds are non-negative, and the lower bound is below the
    upper bound when both are present. *)
Definition sizeBoundsOK (greater less : option Z) : bool :=
  match greater, less with
  | Some g, Some l => (0 <=? g)%Z && (0 <=? l)%Z && (g <? l)%Z
  | Some g, None => (0 <=? g)%Z
  | None, Some l => (0 <=? l)%Z
  | None, None => true
  end.

(** The filter block sets nothing. *)
Definition filterIsEmpty (f : tf_filter) : bool :=
  bool_decide (filter_and f = None)
  && bool_decide (filter_object_size_greater_than f = None)
  && bool_decide (filter_object_size_less_than f = None)
  && bool_decide (filter_prefix f = EmptyString)
  && bool_decide (filter_tag f = None).

Definition ValidationError (id reason : string) : error :=
  errorString ("rule " +:+ id +:+ ": " +:+ reason).

(** ** Expansion *)

Definition expandAbort (a : tf_abort_incomplete_multipart_upload)
    : AbortIncompleteMultipartUpload :=
  {| DaysAfterInitiation := Some (days_after_initiation a) |}.

Definition expandExpiration (id : string) (e : tf_expiration) : res LifecycleExpiration :=
  if bool_decide (expirationFieldsSet e = 1%nat)
  then OK {| Date := stringPtr (expiration_date e);
             Days := intPtr (expiration_days e);
             ExpiredObjectDeleteMarker :=
               if expired_object_delete_marker e then Some true else None |}
  else Failed (ValidationError id
         "exactly one of expiration date, days and expired_object_delete_marker may be set").

Definition expandAnd (id : string) (a : tf_and) : res LifecycleRuleAndOperator :=
  if negb (bool_decide (2 ≤ andFieldsSet a)%nat)
  then Failed (ValidationError id "filter.and requires at least two of its fields")
  else if negb (sizeBoundsOK (intPtr (and_object_size_greater_than a))
                             (intPtr (and_object_size_less_than a)))
  then Failed (ValidationError id "filter.and object size bounds are invalid")
  else OK {| And_ObjectSizeGreaterThan := intPtr (and_object_size_greater_than a);
             And_ObjectSizeLessThan := intPtr (and_object_size_less_than a);
             And_Prefix := stringPtr (and_prefix a);
             And_Tags := map_to_list (and_tags a) |}.

Definition expandFilter (id : string) (f : tf_filter) : res LifecycleRuleFilter :=
  if negb (sizeBoundsOK (filter_object_size_greater_than f)
                        (filter_object_size_less_than f))
  then Failed (ValidationError id "filter object size bounds are invalid")
  else
    match filter_and f with
    | Some a =>
        a' <-? expandAnd id a;
        OK {| And := Some a';
              ObjectSizeGreaterThan := filter_object_size_greater_than f;
              ObjectSizeLessThan := filter_object_size_less_than f;
              Filter_Prefix := stringPtr (filter_prefix f);
              Tag := filter_tag f |}
    | None =>
        OK {| And := None;
              ObjectSizeGreaterThan := filter_object_size_greater_than f;
              ObjectSizeLessThan := filter_object_size_less_than f;
              Filter_Prefix := stringPtr (filter_prefix f);
              Tag := filter_tag f |}
    end.

Definition expandNoncurrentVersionExpiration (e : tf_noncurrent_version_expiration)
    : NoncurrentVersionExpiration :=
  {| NVE_NewerNoncurrentVersions := nve_newer_noncurrent_versions e;
     NVE_NoncurrentDays := Some (nve_noncurrent_days e) |}.

Definition expandNoncurrentVersionTransition (t : tf_noncurrent_version_transition)
    : NoncurrentVersionTransition :=
  {| NVT_NewerNoncurrentVersions := nvt_newer_noncurrent_versions t;
     NVT_NoncurrentDays := Some (nvt_noncurrent_days t);
     NVT_StorageClass := Some (nvt_storage_class t) |}.

(** A transition is by date or by days: the date, when given, is sent alone. *)
Definition expandTransition (t : tf_transition) : Transition :=
  if decide (transition_date t = EmptyString)
  then {| Transition_Date := None;
          Transition_Days := Some (transition_days t);
          Transition_StorageClass := Some (transition_storage_class t) |}
  else {| Transition_Date := Some (transition_date t);
          Transition_Days := None;
          Transition_StorageClass := Some (transition_storage_class t) |}.

(** The filter of the API rule and its deprecated prefix. A rule with an
    empty filter and an empty top-level prefix is sent as a filter with the
    empty prefix. *)
Definition expandFilterAndPrefix (id : string) (f : option tf_filter) (prefix : string)
    : res (option LifecycleRuleFilter * option string) :=
  match f with
  | Some f' =>
      if filterIsEmpty f'
      then if decide (prefix = EmptyString)
           then OK (Some {| And := None; ObjectSizeGreaterThan := None;
                            ObjectSizeLessThan := None;
                            Filter_Prefix := Some EmptyString; Tag := None |}, None)
           else OK (None, Some prefix)
      else (f'' <-? expandFilter id f';
            OK (Some f'', stringPtr prefix))
  | None =>
      if decide (prefix = EmptyString)
      then OK (Some {| And := None; ObjectSizeGreaterThan := None;
                       ObjectSizeLessThan := None;
                       Filter_Prefix := Some EmptyString; Tag := None |}, None)
      else OK (None, Some prefix)
  end.

(** The expiration block is optional. *)
Definition expandOptionalExpiration (id : string) (e : option tf_expiration)
    : res (option LifecycleExpiration) :=
  match e with
  | Some e' => e'' <-? expandExpiration id e'; OK (Some e'')
  | None => OK None
  end.

Definition expandRule (r : tf_rule) : res LifecycleRule :=
  let id := rule_id r in
  expiration <-? expandOptionalExpiration id (rule_expiration r);
  fp <-? expandFilterAndPrefix id (rule_filter r) (rule_prefix r);
  OK {| Rule_AbortIncompleteMultipartUpload :=
          expandAbort <$> rule_abort_incomplete_multipart_upload r;
        Expiration := expiration;
        Filter := fp.1;
        ID := Some id;
        Rule_NoncurrentVersionExpiration :=
          expandNoncurrentVersionExpiration <$> rule_noncurrent_version_expiration r;
        NoncurrentVersionTransitions :=
          expandNoncurrentVersionTransition <$> rule_noncurrent_version_transition r;
        Prefix := fp.2;
        Status := Some (rule_status r);
        Transitions := expandTransition <$> rule_transition r |}.

(** Modelled from the spec: [ExpandLifecycleRules] is called by the resource
    but defined in a file that is not embedded here. Section 4.1: it turns the
    ordered user rules into the ordered API rules; a rule may set exactly one
    of the expiration date, days and a true expired-object marker;
    [filter.and] needs at least two of its fields; object-size bounds are
    non-negative with the lower below the upper; a rule with an empty filter
    and an empty top-level prefix becomes a filter with the empty prefix; the
    first violation fails the whole expansion (no partial payload) with an
    error naming the rule by its id. *)
Fixpoint ExpandLifecycleRules (l : list tf_rule) : res (list LifecycleRule) :=
  match l with
  | [] => OK []
  | r :: rest =>
      r' <-? expandRule r;
      rest' <-? ExpandLifecycleRules rest;
      OK (r' :: rest')
  end.

(** ** Flattening *)

Definition flattenAbort (a : AbortIncompleteMultipartUpload)
    : tf_abort_incomplete_multipart_upload :=
  {| days_after_initiation := intValue (DaysAfterInitiation a) |}.

Definition flattenExpiration (e : LifecycleExpiration) : tf_expiration :=
  {| expiration_date := stringValue (Date e);
     expiration_days := intValue (Days e);
     expired_object_delete_marker := boolValue (ExpiredObjectDeleteMarker e) |}.

Definition flattenAnd (a : LifecycleRuleAndOperator) : tf_and :=
  {| and_object_size_greater_than := intValue (And_ObjectSizeGreaterThan a);
     and_object_size_less_than := intValue (And_ObjectSizeLessThan a);
     and_prefix := stringValue (And_Prefix a);
     and_tags := list_to_map (And_Tags a) |}.

Definition flattenFilter (f : LifecycleRuleFilter) : tf_filter :=
  {| filter_and := flattenAnd <$> And f;
     filter_object_size_greater_than := ObjectSizeGreaterThan f;
     filter_object_size_less_than := ObjectSizeLessThan f;
     filter_prefix := stringValue (Filter_Prefix f);
     filter_tag := Tag f |}.

Definition flattenNoncurrentVersionExpiration (e : NoncurrentVersionExpiration)
    : tf_noncurrent_version_expiration :=
  {| nve_newer_noncurrent_versions := NVE_NewerNoncurrentVersions e;
     nve_noncurrent_days := intValue (NVE_NoncurrentDays e) |}.

Definition flattenNoncurrentVersionTransition (t : NoncurrentVersionTransition)
    : tf_noncurrent_version_transition :=
  {| nvt_newer_noncurrent_versions := NVT_NewerNoncurrentVersions t;
     nvt_noncurrent_days := intValue (NVT_NoncurrentDays t);
     nvt_storage_class := stringValue (NVT_StorageClass t) |}.

Definition flattenTransition (t : Transition) : tf_transition :=
  {| transition_date := stringValue (Transition_Date t);
     transition_days := intValue (Transition_Days t);
     transition_storage_class := stringValue (Transition_StorageClass t) |}.

Definition flattenRule (r : LifecycleRule) : tf_rule :=
  {| rule_abort_incomplete_multipart_upload :=
       flattenAbort <$> Rule_AbortIncompleteMultipartUpload r;
     rule_expiration := flattenExpiration <$> Expiration r;
     rule_filter := flattenFilter <$> Filter r;
     rule_id := stringValue (ID r);
     rule_noncurrent_version_expiration :=
       flattenNoncurrentVersionExpiration <$> Rule_NoncurrentVersionExpiration r;
     rule_noncurrent_version_transition :=
       flattenNoncurrentVersionTransition <$> NoncurrentVersionTransitions r;
     rule_prefix := stringValue (Prefix r);
     rule_status := stringValue (Status r);
     rule_transition := flattenTransition <$> Transitions r |}.

(** Modelled from the spec: [FlattenLifecycleRules] is called by the read
    function but defined in a file that is not embedded here. Section 4.1: it
    is the inverse direction of the expansion, from the API rules back to the
    user-facing blocks, field by field. *)
Definition FlattenLifecycleRules (l : list LifecycleRule) : list tf_rule :=
  flattenRule <$> l.

(** ** What a rule means *)

(** An object of the bucket, as far as a filter can look at it. *)
Record object : Type := {
  object_key : string;
  object_tags : gmap string string;
  object_size : Z
}.

Definition hasTag (o : object) (kv : string * string) : bool :=
  bool_decide (object_tags o !! kv.1 = Some kv.2).

(** An integer bound that is unset (zero) does not constrain. *)
Definition largerThan (bound : Z) (o : object) : bool :=
  bool_decide (bound = 0%Z) || (bound <? object_size o)%Z.
Definition smallerThan (bound : Z) (o : object) : bool :=
  bool_decide (bound = 0%Z) || (object_size o <? bound)%Z.

Definition andMatches (a : tf_and) (o : object) : bool :=
  largerThan (and_object_size_greater_than a) o
  && smallerThan (and_object_size_less_than a) o
  && String.prefix (and_prefix a) (object_key o)
  && forallb (hasTag o) (map_to_list (and_tags a)).

Definition filterMatches (f : tf_filter) (o : object) : bool :=
  match filter_and f with Some a => andMatches a o | None => true end
  && match filter_object_size_greater_than f with
     | Some g => (g <? object_size o)%Z | None => true end
  && match filter_object_size_less_than f with
     | Some l => (object_size o <? l)%Z | None => true end
  && String.prefix (filter_prefix f) (object_key o)
  && match filter_tag f with Some kv => hasTag o kv | None => true end.

(** The objects a user rule applies to: those under the deprecated top-level
    prefix that pass the filter block. *)
Definition ruleApplies (r : tf_rule) (o : object) : bool :=
  String.prefix (rule_prefix r) (object_key o)
  && match rule_filter r with Some f => filterMatches f o | None => true end.

(** When a transition happens: at its date, or after its days. *)
Definition transitionWhen (t : tf_transition) : string + Z :=
  if decide (transition_date t = EmptyString)
  then inr (transition_days t)
  else inl (transition_date t).

(** Which expiration field a block chooses, if exactly one. *)
Inductive ExpirationChoice : Type :=
  | ExpireAtDate (d : string)
  | ExpireAfterDays (n : Z)
  | ExpireDeleteMarker.

Definition expirationChoice (e : tf_expiration) : option ExpirationChoice :=
  if negb (bool_decide (expirationFieldsSet e = 1%nat)) then None
  else if negb (bool_decide (expiration_date e = EmptyString))
  then Some (ExpireAtDate (expiration_date e))
  else if negb (bool_decide (expiration_days e = 0%Z))
  then Some (ExpireAfterDays (expiration_days e))
  else Some ExpireDeleteMarker.

(** Two user rules with the same semantic content: the same id and status,
    the same objects selected, the same expiration choice, the same
    transitions, noncurrent-version settings and multipart-upload abort. *)
Definition SameContent (r r' : tf_rule) : Prop :=
  rule_id r = rule_id r'
  ∧ rule_status r = rule_status r'
  ∧ (∀ o, ruleApplies r o = ruleApplies r' o)
  ∧ (expirationChoice <$> rule_expiration r) = (expirationChoice <$> rule_expiration r')
  ∧ ((fun t => (transitionWhen t, transition_storage_class t)) <$> rule_transition r)
    = ((fun t => (transitionWhen t, transition_storage_class t)) <$> rule_transition r')
  ∧ rule_noncurrent_version_expiration r = rule_noncurrent_version_expiration r'
  ∧ rule_noncurrent_version_transition r = rule_noncurrent_version_transition r'
  ∧ rule_abort_incomplete_multipart_upload r = rule_abort_incomplete_multipart_upload r'.

End RuleMapper.

(* ===================================================================== *)
(** * A concrete set of collaborators, to run the resource on examples *)
(* ===================================================================== *)

Definition resourceIDSeparator : ascii := ","%char.

(** The simplest write retry: a single attempt. *)
Definition singleAttempt {ApiRule : Type} (code : string)
    (f : list (Call ApiRule) -> option error * list (Call ApiRule))
    (tr : list (Call ApiRule)) : option error * list (Call ApiRule) :=
  f tr.

(** A wait that finds the rules in place at once. *)
Definition noWait {ApiRule : Type} (conn : S3Conn ApiRule) (bucket owner : string)
    (rules : list ApiRule) (tr : list (Call ApiRule))
    : option error * list (Call ApiRule) :=
  (None, tr).

(** What [resource.RetryContext] of the plugin SDK returns at its deadline:
    the last retryable error when an attempt has completed (it takes
    precedence over the timeout of the wait), the timeout error when none
    has. *)
Definition lastErrorFirst (resultErr : option error) : error :=
  default TimeoutError resultErr.

Definition exampleCollaborators (deadline : option error -> error)
    : Collaborators RuleMapper.tf_rule RuleMapper.LifecycleRule :=
  {| ExpandLifecycleRules := RuleMapper.ExpandLifecycleRules;
     FlattenLifecycleRules := RuleMapper.FlattenLifecycleRules;
     CreateResourceID := Codec.CreateResourceID resourceIDSeparator;
     ParseResourceID := Codec.ParseResourceID resourceIDSeparator;
     RetryOnAWSCode := singleAttempt;
     waitForLifecycleConfigurationRulesStatus := noWait;
     retryDeadline := deadline |}.

(** The rule of the scenario of section 8: expire after 30 days. *)
Definition expireOld : RuleMapper.tf_rule :=
  {| RuleMapper.rule_abort_incomplete_multipart_upload := None;
     RuleMapper.rule_expiration :=
       Some {| RuleMapper.expiration_date := "";
               RuleMapper.expiration_days := 30;
               RuleMapper.expired_object_delete_marker := false |};
     RuleMapper.rule_filter := None;
     RuleMapper.rule_id := "expire-old";
     RuleMapper.rule_noncurrent_version_expiration := None;
     RuleMapper.rule_noncurrent_version_transition := [];
     RuleMapper.rule_prefix := "";
     RuleMapper.rule_status := "Enabled";
     RuleMapper.rule_transition := [] |}.

(** A rule that sets both an expiration date and days. *)
Definition expireTwice : RuleMapper.tf_rule :=
  {| RuleMapper.rule_abort_incomplete_multipart_upload := None;
     RuleMapper.rule_expiration :=
       Some {| RuleMapper.expiration_date := "2030-01-01T00:00:00Z";
               RuleMapper.expiration_days := 30;
               RuleMapper.expired_object_delete_marker := false |};
     RuleMapper.rule_filter := None;
     RuleMapper.rule_id := "expire-twice";
     RuleMapper.rule_noncurrent_version_expiration := None;
     RuleMapper.rule_noncurrent_version_transition := [];
     RuleMapper.rule_prefix := "";
     RuleMapper.rule_status := "Enabled";
     RuleMapper.rule_transition := [] |}.

(** The API form of a rule list accepted by the expansion (empty if not). *)
Definition apiRules (l : list RuleMapper.tf_rule) : list RuleMapper.LifecycleRule :=
  match RuleMapper.ExpandLifecycleRules l with
  | OK rules => rules
  | Failed _ => []
  end.

(** A service whose successive reads are the outputs of [reads] and then the
    last of them for ever; writes and deletes succeed. *)
Definition scriptedReads {ApiRule : Type}
    (reads : list (GetBucketLifecycleConfigurationOutput ApiRule * option error))
    (final : GetBucketLifecycleConfigurationOutput ApiRule * option error)
    : S3Conn ApiRule :=
  {| onPut := fun _ _ => None;
     onGet := fun n _ => default final (reads !! n);
     onDelete := fun _ _ => None |}.

(** A service whose delete answers with [err]. *)
Definition deleteAnswers {ApiRule : Type} (err : option error) : S3Conn ApiRule :=
  {| onPut := fun _ _ => None;
     onGet := fun _ _ => ({| Rules := [] |}, None);
     onDelete := fun _ _ => err |}.

Definition exampleData (id : string) (isNew : bool) (rules : list RuleMapper.tf_rule)
    : ResourceData RuleMapper.tf_rule :=
  {| Id := id; IsNewResource := isNew; bucket := "my-bucket";
     expected_bucket_owner := ""; rule := rules |}.

Definition emptyOutput : GetBucketLifecycleConfigurationOutput RuleMapper.LifecycleRule :=
  {| Rules := [] |}.

Definition expireOldOutput : GetBucketLifecycleConfigurationOutput RuleMapper.LifecycleRule :=
  {| Rules := apiRules [expireOld] |}.

(** Reads R1, R2, R3 with R1 different from R2 and R2 equal to R3. *)
Definition settlingReads : S3Conn RuleMapper.LifecycleRule :=
  scriptedReads [(emptyOutput, None); (expireOldOutput, None)] (expireOldOutput, None).

(** Reads that alternate for two attempts, then the rule. *)
Definition unsettledReads : S3Conn RuleMapper.LifecycleRule :=
  scriptedReads [(emptyOutput, None); (expireOldOutput, None)] (emptyOutput, None).

Definition noSuchConfiguration : error :=
  awserr "NoSuchLifecycleConfiguration" "The lifecycle configuration does not exist".

Definition accessDenied : error := awserr "AccessDenied" "Access Denied".

(** A service that refuses every write. *)
Definition writeRefused : S3Conn RuleMapper.LifecycleRule :=
  {| onPut := fun _ _ => Some accessDenied;
     onGet := fun _ _ => ({| Rules := [] |}, None);
     onDelete := fun _ _ => None |}.

(** Every read answers that the configuration is gone. *)
Definition goneReads : S3Conn RuleMapper.LifecycleRule :=
  scriptedReads [] (emptyOutput, Some noSuchConfiguration).

Definition myBucket : GetBucketLifecycleConfigurationInput := getInput "my-bucket" "".

(** The keys of AWS itself start with "aws:". *)
Definition hasAwsPrefix (k : string) : bool := String.prefix "aws:" k.

(** A service that has [ts] stored on every bucket and object and accepts
    every write. *)
Definition storedTags (ts : TagSet) : TagConn :=
  {| onGetBucketTagging := fun _ _ => (ts, None);
     onPutBucketTagging := fun _ _ _ => None;
     onDeleteBucketTagging := fun _ _ => None;
     onGetObjectTagging := fun _ _ _ => (ts, None);
     onPutObjectTagging := fun _ _ _ _ => None;
     onDeleteObjectTagging := fun _ _ _ => None |}.

Definition noSuchTagSet : error := awserr "NoSuchTagSet" "The TagSet does not exist".

(** A service that answers every listing with a NoSuchTagSet error. *)
Definition noTagSetAnswers : TagConn :=
  {| onGetBucketTagging := fun _ _ => ([], Some noSuchTagSet);
     onPutBucketTagging := fun _ _ _ => None;
     onDeleteBucketTagging := fun _ _ => None;
     onGetObjectTagging := fun _ _ _ => ([], Some noSuchTagSet);
     onPutObjectTagging := fun _ _ _ _ => None;
     onDeleteObjectTagging := fun _ _ _ => None |}.


(** The outputs of [settlingReads], read by read. *)
Definition settlingOutputs (k : nat)
    : GetBucketLifecycleConfigurationOutput RuleMapper.LifecycleRule :=
  match k with
  | 0 => emptyOutput
  | S _ => expireOldOutput
  end.

(** Every read is refused. *)
Definition refusedReads : S3Conn RuleMapper.LifecycleRule :=
  scriptedReads [] (emptyOutput, Some accessDenied).

(** A service that refuses every listing of tags. *)
Definition listingRefused : TagConn :=
  {| onGetBucketTagging := fun _ _ => ([], Some accessDenied);
     onPutBucketTagging := fun _ _ _ => None;
     onDeleteBucketTagging := fun _ _ => None;
     onGetObjectTagging := fun _ _ _ => ([], Some accessDenied);
     onPutObjectTagging := fun _ _ _ _ => None;
     onDeleteObjectTagging := fun _ _ _ => None |}.

(** A service that lists no tags and refuses every write of tags. *)
Definition tagWritesRefused : TagConn :=
  {| onGetBucketTagging := fun _ _ => ([], None);
     onPutBucketTagging := fun _ _ _ => Some accessDenied;
     onDeleteBucketTagging := fun _ _ => Some accessDenied;
     onGetObjectTagging := fun _ _ _ => ([], None);
     onPutObjectTagging := fun _ _ _ _ => Some accessDenied;
     onDeleteObjectTagging := fun _ _ _ => Some accessDenied |}.

(* ===================================================================== *)
(** * Facts about the read loop *)
(* ===================================================================== *)

Section ReadLoopFacts.
Context {TfRule ApiRule : Type} `{!EqDecision ApiRule}
        `{!Collaborators TfRule ApiRule}.

Implicit Types (conn : S3Conn ApiRule) (tr : list (Call ApiRule))
  (input : GetBucketLifecycleConfigurationInput).

Lemma RetryContext_step {St} deadline budget (f : St -> option RetryError * St) rerr s :
  RetryContext deadline (S budget) f rerr s =
    match f s with
    | (None, s') => (None, s')
    | (Some r, s') =>
        if Retryable r then RetryContext deadline budget f (Some (Err r)) s'
        else (Some (Err r), s')
    end.
Proof. reflexivity. Qed.

(** The trace after one read and [S j - (length tr + 1)] further ones is the
    trace after [S j - length tr] reads. *)
Ltac one_more_read Htr :=
  rewrite Htr, <- app_assoc; simpl;
  match goal with
  | |- context [S ?j - length ?tr] =>
      replace (S j - length tr) with (S (S j - (length tr + 1))) by lia
  end.

(** The four ways one attempt of the loop can go. *)
Lemma readAttempt_cases conn isNew input vars tr :
  let tr1 := tr ++ [GetBucketLifecycleConfiguration input] in
  let out := (onGet conn (length tr) input).1 in
  let seen := {| lastOutput := lastOutput vars; output := Some out |} in
  let kept := {| lastOutput := Some out; output := Some out |} in
  (∃ e, onGet conn (length tr) input = (out, Some e)
        ∧ isNew = true ∧ ErrCodeEquals (Some e) notFoundCodes = true
        ∧ readAttempt conn isNew input (vars, tr) = (Some (RetryableError e), (seen, tr1)))
  ∨ (∃ e, onGet conn (length tr) input = (out, Some e)
          ∧ isNew && ErrCodeEquals (Some e) notFoundCodes = false
          ∧ readAttempt conn isNew input (vars, tr)
            = (Some (NonRetryableError e), (seen, tr1)))
  ∨ (onGet conn (length tr) input = (out, None)
     ∧ lastOutput vars ≠ Some out
     ∧ readAttempt conn isNew input (vars, tr)
       = (Some (RetryableError notStabilized), (kept, tr1)))
  ∨ (onGet conn (length tr) input = (out, None)
     ∧ lastOutput vars = Some out
     ∧ readAttempt conn isNew input (vars, tr) = (None, (seen, tr1))).
Proof.
  unfold readAttempt, GetBucketLifecycleConfigurationWithContext.
  destruct (onGet conn (length tr) input) as [out [e|]]; simpl.
  - destruct (isNew && ErrCodeEquals (Some e) notFoundCodes) eqn:Hnf.
    + left. exists e. apply andb_true_iff in Hnf as [-> ->]. done.
    + right; left. by exists e.
  - destruct (lastOutput vars) as [last|].
    + unfold DeepEqual. case_bool_decide as Heq; simpl.
      * subst last. by do 3 right.
      * right; right; left. split; [done|]. split; [congruence|done].
    + right; right; left. done.
Qed.

(** When the loop ends without error, its last read [j] succeeded and equals
    the value it was compared with: the starting [lastOutput], or an earlier
    successful read [i] of the loop; every read in between was skipped. *)
Lemma readLoop_success_inv conn isNew input budget :
  ∀ vars tr rerr vars' tr',
    RetryContext retryDeadline budget (readAttempt conn isNew input) rerr (vars, tr)
      = (None, (vars', tr')) →
    ∃ j o,
      length tr ≤ j
      ∧ tr' = tr ++ replicate (S j - length tr) (GetBucketLifecycleConfiguration input)
      ∧ onGet conn j input = (o, None)
      ∧ output vars' = Some o
      ∧ ((lastOutput vars = Some o
          ∧ ∀ k, length tr ≤ k < j → skippedRead conn isNew input k)
         ∨ (∃ i, length tr ≤ i < j
                 ∧ onGet conn i input = (o, None)
                 ∧ ∀ k, i < k < j → skippedRead conn isNew input k)).
Proof.
  induction budget as [|budget IH]; intros vars tr rerr vars' tr' Hrun.
  { discriminate. }
  rewrite RetryContext_step in Hrun.
  pose proof (readAttempt_cases conn isNew input vars tr) as Hcases. cbv zeta in Hcases.
  set (out := (onGet conn (length tr) input).1) in *.
  destruct Hcases as [(e & Hget & HisNew & Hcode & Hstep)
                     |[(e & Hget & Hnf & Hstep)
                     |[(Hget & Hne & Hstep)|(Hget & Hlast & Hstep)]]];
    rewrite Hstep in Hrun; simpl in Hrun.
  - apply IH in Hrun as (j & o & Hle & Htr & Hj & Hout & Hcmp).
    rewrite length_app in Hle, Htr, Hcmp. simpl in *.
    exists j, o. split; [lia|]. split.
    { by one_more_read Htr. }
    split; [done|]. split; [done|].
    destruct Hcmp as [[Hlast Hgap]|(i & Hi & Hgi & Hgap)].
    + left. split; [done|]. intros k Hk.
      destruct (decide (k = length tr)) as [->|].
      * by exists out, e.
      * apply Hgap. lia.
    + right. exists i. split; [lia|]. done.
  - discriminate.
  - apply IH in Hrun as (j & o & Hle & Htr & Hj & Hout & Hcmp).
    rewrite length_app in Hle, Htr, Hcmp. simpl in *.
    exists j, o. split; [lia|]. split.
    { by one_more_read Htr. }
    split; [done|]. split; [done|]. right.
    destruct Hcmp as [[Hlast' Hgap]|(i & Hi & Hgi & Hgap)].
    + injection Hlast' as <-. exists (length tr). split; [lia|]. split; [done|].
      intros k Hk. apply Hgap. lia.
    + exists i. split; [lia|]. done.
  - injection Hrun as <- <-.
    exists (length tr), out. split; [lia|]. split.
    { by replace (S (length tr) - length tr) with 1 by lia. }
    split; [done|]. split; [done|]. left. split; [done|]. intros k Hk. lia.
Qed.
End ReadLoopFacts.

(* ===================================================================== *)
(** * The reconciler: read, create, update, delete *)
(* ===================================================================== *)

Section ResourceTheorems.
Context {TfRule ApiRule : Type} `{!EqDecision ApiRule}
        `{!Collaborators TfRule ApiRule}.

Implicit Types (conn : S3Conn ApiRule) (tr : list (Call ApiRule))
  (input : GetBucketLifecycleConfigurationInput) (d : ResourceData TfRule).

(** What the read function does with the loop's result. *)
Lemma Read_unfold budget conn d tr b own err vars tr1 :
  ParseResourceID (Id d) = OK (b, own) →
  readLoop budget conn (IsNewResource d) (getInput b own) tr = (err, (vars, tr1)) →
  resourceBucketLifecycleConfigurationRead budget conn d tr =
    let '(output, err, tr2) :=
      if TimedOut err
      then (Some (onGet conn (length tr1) (getInput b own)).1,
            (onGet conn (length tr1) (getInput b own)).2,
            tr1 ++ [GetBucketLifecycleConfiguration (getInput b own)])
      else (output vars, err, tr1) in
    if negb (IsNewResource d) && ErrCodeEquals err notFoundCodes
    then (Returns ([], SetId d ""), tr2)
    else match err with
         | Some e =>
             (Returns (diag_Errorf ("error getting S3 Bucket Lifecycle Configuration ("
                                    +:+ Id d +:+ "): " +:+ Error e), d), tr2)
         | None =>
             match output with
             | None => (Panics, tr2)
             | Some out => (Returns ([], readInto d b own out), tr2)
             end
         end.
Proof.
  intros Hparse Hloop. unfold resourceBucketLifecycleConfigurationRead.
  rewrite Hparse. fold (getInput b own). rewrite Hloop.
  unfold GetBucketLifecycleConfigurationWithContext.
  destruct (TimedOut err); [destruct (onGet conn (length tr1) (getInput b own))|]; done.
Qed.

(** C1. In the stabilization loop of the read function, success is reported
    only after two successful reads with deeply equal outputs, the second
    being the last read made and the first the successful read before it
    (they are adjacent requests on a resource that is not new and whenever
    no read between them failed; on a new resource only reads that failed
    with a not-found error may lie between them), so at least two reads are
    made and the read function then returns that output flattened. In particular, for reads R1, R2, R3 with R1 different
    from R2 and R2 equal to R3, the loop succeeds exactly when three
    attempts fit, after the third read. *)
Theorem stabilization_needs_two_equal_reads :
  (∀ budget conn d tr b own vars' tr',
     ParseResourceID (Id d) = OK (b, own) →
     readLoop budget conn (IsNewResource d) (getInput b own) tr = (None, (vars', tr')) →
     ∃ i j o,
       length tr ≤ i < j
       ∧ onGet conn i (getInput b own) = (o, None)
       ∧ onGet conn j (getInput b own) = (o, None)
       ∧ (∀ k, i < k < j → skippedRead conn (IsNewResource d) (getInput b own) k)
       ∧ (IsNewResource d = false
          ∨ (∀ k, i < k < j → (onGet conn k (getInput b own)).2 = None) →
          j = S i)
       ∧ tr' = tr ++ replicate (S j - length tr)
                       (GetBucketLifecycleConfiguration (getInput b own))
       ∧ length tr + 2 ≤ length tr'
       ∧ resourceBucketLifecycleConfigurationRead budget conn d tr
         = (Returns ([], readInto d b own o), tr'))
  ∧ (∀ budget conn (isNew : bool) input tr R1 R2 R3,
       onGet conn (length tr) input = (R1, None) →
       onGet conn (length tr + 1) input = (R2, None) →
       onGet conn (length tr + 2) input = (R3, None) →
       R1 ≠ R2 → R2 = R3 →
       (3 ≤ budget →
        readLoop budget conn isNew input tr
        = (None, ({| lastOutput := Some R2; output := Some R3 |},
                  tr ++ replicate 3 (GetBucketLifecycleConfiguration input))))
       ∧ (budget < 3 → (readLoop budget conn isNew input tr).1 ≠ None)).
Proof.
  split.
  - intros budget conn d tr b own vars' tr' Hparse Hloop.
    pose proof Hloop as Hinv. unfold readLoop in Hinv.
    apply readLoop_success_inv in Hinv as (j & o & Hle & Htr & Hj & Hout & Hcmp).
    simpl in Hcmp. destruct Hcmp as [[? _]|(i & Hi & Hgi & Hgap)]; [done|].
    exists i, j, o. split; [lia|]. split; [done|]. split; [done|]. split; [done|].
    split.
    { intros Hnew. destruct (decide (j = S i)) as [|Hne]; [done|].
      destruct (Hgap (S i)) as (out & e & Hfailed & Hn & _); [lia|].
      destruct Hnew as [Hnew|Hnew]; [congruence|].
      specialize (Hnew (S i) ltac:(lia)). rewrite Hfailed in Hnew. discriminate. }
    split; [done|]. split.
    { rewrite Htr, length_app, length_replicate. lia. }
    rewrite (Read_unfold _ _ _ _ _ _ _ _ _ Hparse Hloop). simpl.
    rewrite andb_false_r. by rewrite Hout.
  - intros budget conn isNew input tr R1 R2 R3 H1 H2 H3 Hne Heq. subst R3.
    assert (Hs1 : ∀ n rerr,
      RetryContext retryDeadline (S n) (readAttempt conn isNew input) rerr
        ({| lastOutput := None; output := None |}, tr)
      = RetryContext retryDeadline n (readAttempt conn isNew input) (Some notStabilized)
          ({| lastOutput := Some R1; output := Some R1 |},
           tr ++ [GetBucketLifecycleConfiguration input])).
    { intros n rerr. rewrite RetryContext_step. unfold readAttempt at 1.
      unfold GetBucketLifecycleConfigurationWithContext. by rewrite H1. }
    assert (Hs2 : ∀ n rerr,
      RetryContext retryDeadline (S n) (readAttempt conn isNew input) rerr
        ({| lastOutput := Some R1; output := Some R1 |},
         tr ++ [GetBucketLifecycleConfiguration input])
      = RetryContext retryDeadline n (readAttempt conn isNew input) (Some notStabilized)
          ({| lastOutput := Some R2; output := Some R2 |},
           (tr ++ [GetBucketLifecycleConfiguration input])
              ++ [GetBucketLifecycleConfiguration input])).
    { intros n rerr. rewrite RetryContext_step. unfold readAttempt at 1.
      unfold GetBucketLifecycleConfigurationWithContext.
      rewrite length_app. simpl. rewrite H2. simpl.
      unfold DeepEqual. by rewrite bool_decide_eq_false_2. }
    split.
    + intros Hb. destruct budget as [|[|[|n]]]; [lia..|].
      unfold readLoop. rewrite Hs1, Hs2, RetryContext_step. unfold readAttempt at 1.
      unfold GetBucketLifecycleConfigurationWithContext.
      rewrite !length_app. simpl.
      replace (length tr + 1 + 1) with (length tr + 2) by lia. rewrite H3. simpl.
      unfold DeepEqual. rewrite bool_decide_eq_true_2 by done. simpl.
      by rewrite <- !app_assoc.
    + intros Hb. destruct budget as [|[|[|n]]]; [| | |lia]; unfold readLoop.
      * done.
      * by rewrite Hs1.
      * by rewrite Hs1, Hs2.
Qed.

(** How the loop ends, told by the requests it made: [n] reads, and either
    the last of them decided the result (success, or an error that is not
    retried), or the deadline passed after [n = budget] retried attempts. *)
Lemma readLoop_outcome conn isNew input budget :
  ∀ vars tr rerr r vars' tr',
    RetryContext retryDeadline budget (readAttempt conn isNew input) rerr (vars, tr)
      = (r, (vars', tr')) →
    ∃ n, tr' = tr ++ replicate n (GetBucketLifecycleConfiguration input)
         ∧ ((n = 0 ∧ r = Some (retryDeadline rerr) ∧ vars' = vars)
            ∨ (0 < n
               ∧ ∃ out err,
                   onGet conn (length tr + n - 1) input = (out, err)
                   ∧ output vars' = Some out
                   ∧ ((r = err ∧ isNew && ErrCodeEquals err notFoundCodes = false)
                      ∨ ((∃ rerr', r = Some (retryDeadline rerr'))
                         ∧ (err = None ∨ isNew = true))))).
Proof.
  induction budget as [|budget IH]; intros vars tr rerr r vars' tr' Hrun.
  { injection Hrun as <- <- <-. exists 0. split; [by rewrite app_nil_r|]. by left. }
  rewrite RetryContext_step in Hrun.
  pose proof (readAttempt_cases conn isNew input vars tr) as Hcases. cbv zeta in Hcases.
  set (out := (onGet conn (length tr) input).1) in *.
  assert (Hnext : ∀ rerr1 vars1,
    output vars1 = Some out →
    (onGet conn (length tr) input).2 = None ∨ isNew = true →
    RetryContext retryDeadline budget (readAttempt conn isNew input) rerr1
      (vars1, tr ++ [GetBucketLifecycleConfiguration input]) = (r, (vars', tr')) →
    ∃ n, tr' = tr ++ replicate n (GetBucketLifecycleConfiguration input)
         ∧ ((n = 0 ∧ r = Some (retryDeadline rerr) ∧ vars' = vars)
            ∨ (0 < n
               ∧ ∃ out err,
                   onGet conn (length tr + n - 1) input = (out, err)
                   ∧ output vars' = Some out
                   ∧ ((r = err ∧ isNew && ErrCodeEquals err notFoundCodes = false)
                      ∨ ((∃ rerr', r = Some (retryDeadline rerr'))
                         ∧ (err = None ∨ isNew = true)))))).
  { intros rerr1 vars1 Hout1 Hretried Hrec.
    apply IH in Hrec as (n & Htr & Hend). rewrite length_app in Hend. simpl in Hend.
    exists (S n). split; [by rewrite Htr, <- app_assoc|]. right. split; [lia|].
    destruct Hend as [(-> & -> & ->)|(Hn & out' & err' & Hget' & Hout' & Hr)].
    - exists out, (onGet conn (length tr) input).2.
      replace (length tr + 1 - 1) with (length tr) by lia.
      split; [by destruct (onGet conn (length tr) input)|]. split; [done|].
      right. split; [by eexists|done].
    - exists out', err'.
      replace (length tr + S n - 1) with (length tr + 1 + n - 1) by lia. done. }
  destruct Hcases as [(e & Hget & HisNew & Hcode & Hstep)
                     |[(e & Hget & Hnf & Hstep)
                     |[(Hget & Hne & Hstep)|(Hget & Hlast & Hstep)]]];
    rewrite Hstep in Hrun; simpl in Hrun.
  - eapply Hnext; [|by right|exact Hrun]. done.
  - injection Hrun as <- <- <-. exists 1. split; [done|]. right. split; [lia|].
    exists out, (Some e). replace (length tr + 1 - 1) with (length tr) by lia.
    split; [done|]. split; [done|]. by left.
  - eapply Hnext; [|left; by rewrite Hget|exact Hrun]. done.
  - injection Hrun as <- <- <-. exists 1. split; [done|]. right. split; [lia|].
    exists out, None. replace (length tr + 1 - 1) with (length tr) by lia.
    split; [done|]. split; [done|]. left. by rewrite andb_false_r.
Qed.

(** A not-found error carries an AWS code, so it is not the helper's
    timeout. *)
Lemma ErrCodeEquals_not_TimedOut (err : option error) codes :
  ErrCodeEquals err codes = true → TimedOut err = false.
Proof. by destruct err as [[]|]. Qed.

(** C2. When the remote get fails with NoSuchLifecycleConfiguration or
    NoSuchBucket: on a newly created resource the attempt ends with a
    retryable error and the loop goes on with the next attempt; on a
    resource that is not new, the read function whose last request got that
    answer sets the id to the empty string and returns no diagnostics. *)
Theorem not_found_on_read :
  (∀ budget conn input vars tr rerr out e,
     onGet conn (length tr) input = (out, Some e) →
     ErrCodeEquals (Some e) notFoundCodes = true →
     readAttempt conn true input (vars, tr)
     = (Some (RetryableError e),
        ({| lastOutput := lastOutput vars; output := Some out |},
         tr ++ [GetBucketLifecycleConfiguration input]))
     ∧ RetryContext retryDeadline (S budget) (readAttempt conn true input) rerr (vars, tr)
       = RetryContext retryDeadline budget (readAttempt conn true input) (Some e)
           ({| lastOutput := lastOutput vars; output := Some out |},
            tr ++ [GetBucketLifecycleConfiguration input]))
  ∧ (∀ budget conn d tr b own res tr' k out e,
       IsNewResource d = false →
       ParseResourceID (Id d) = OK (b, own) →
       resourceBucketLifecycleConfigurationRead budget conn d tr = (res, tr') →
       length tr ≤ k → length tr' = S k →
       onGet conn k (getInput b own) = (out, Some e) →
       ErrCodeEquals (Some e) notFoundCodes = true →
       res = Returns ([], SetId d ""))
  ∧ (∀ budget conn d tr b own out e,
       IsNewResource d = false →
       ParseResourceID (Id d) = OK (b, own) →
       0 < budget →
       onGet conn (length tr) (getInput b own) = (out, Some e) →
       ErrCodeEquals (Some e) notFoundCodes = true →
       resourceBucketLifecycleConfigurationRead budget conn d tr
       = (Returns ([], SetId d ""),
          tr ++ [GetBucketLifecycleConfiguration (getInput b own)])).
Proof.
  split; [|split].
  - intros budget conn input vars tr rerr out e Hget Hcode.
    assert (Hstep : readAttempt conn true input (vars, tr)
      = (Some (RetryableError e),
         ({| lastOutput := lastOutput vars; output := Some out |},
          tr ++ [GetBucketLifecycleConfiguration input]))).
    { unfold readAttempt, GetBucketLifecycleConfigurationWithContext.
      rewrite Hget. simpl. by rewrite Hcode. }
    split; [done|]. by rewrite RetryContext_step, Hstep.
  - intros budget conn d tr b own res tr' k out e Hnew Hparse Hread Hk Hlen Hget Hcode.
    destruct (readLoop budget conn (IsNewResource d) (getInput b own) tr)
      as [err [vars tr1]] eqn:Hloop.
    rewrite (Read_unfold _ _ _ _ _ _ _ _ _ Hparse Hloop) in Hread.
    rewrite Hnew in Hread, Hloop. simpl in Hread.
    destruct (TimedOut err) eqn:Htimeout.
    + assert (k = length tr1) as ->.
      { destruct (ErrCodeEquals _ _); [|destruct (onGet conn _ _).2];
          injection Hread as <- <-; rewrite length_app in Hlen; simpl in Hlen; lia. }
      rewrite Hget in Hread. simpl in Hread. rewrite Hcode in Hread. congruence.
    + unfold readLoop in Hloop.
      apply readLoop_outcome in Hloop as (n & Htr & Hend).
      assert (tr' = tr1) as ->.
      { destruct (ErrCodeEquals _ _); [|destruct err; [|destruct (output vars)]];
          by injection Hread as <- <-. }
      rewrite Htr, length_app, length_replicate in Hlen.
      destruct Hend as [(-> & _)|(Hn & out' & err' & Hget' & _ & Hr)]; [lia|].
      replace (length tr + n - 1) with k in Hget' by lia.
      rewrite Hget in Hget'. injection Hget' as <- <-.
      destruct Hr as [[-> _]|[_ [?|?]]]; [|done..].
      rewrite Hcode in Hread. congruence.
  - intros budget conn d tr b own out e Hnew Hparse Hbudget Hget Hcode.
    destruct budget as [|budget]; [lia|].
    assert (Hloop : readLoop (S budget) conn (IsNewResource d) (getInput b own) tr
      = (Some e, ({| lastOutput := None; output := Some out |},
                  tr ++ [GetBucketLifecycleConfiguration (getInput b own)]))).
    { unfold readLoop. rewrite RetryContext_step.
      unfold readAttempt, GetBucketLifecycleConfigurationWithContext.
      rewrite Hget, Hnew. done. }
    rewrite (Read_unfold _ _ _ _ _ _ _ _ _ Hparse Hloop).
    rewrite (ErrCodeEquals_not_TimedOut _ _ Hcode), Hnew, Hcode. done.
Qed.

(** A run of [budget] successful reads of which no two consecutive ones are
    equal uses up the whole budget: the loop ends at the deadline. *)
Lemma unstable_reads_reach_deadline conn isNew input budget :
  ∀ (outs : nat → GetBucketLifecycleConfigurationOutput ApiRule) vars tr rerr,
    (∀ k, k < budget → onGet conn (length tr + k) input = (outs k, None)) →
    (∀ k, S k < budget → outs k ≠ outs (S k)) →
    (0 < budget → lastOutput vars ≠ Some (outs 0)) →
    ∃ rerr' vars',
      RetryContext retryDeadline budget (readAttempt conn isNew input) rerr (vars, tr)
      = (Some (retryDeadline rerr'),
         (vars', tr ++ replicate budget (GetBucketLifecycleConfiguration input)))
      ∧ (rerr' = if decide (budget = 0) then rerr else Some notStabilized).
Proof.
  induction budget as [|budget IH]; intros outs vars tr rerr Hreads Hdiff Hfirst.
  { exists rerr, vars. by rewrite app_nil_r. }
  rewrite RetryContext_step.
  unfold readAttempt at 1, GetBucketLifecycleConfigurationWithContext.
  specialize (Hreads 0 ltac:(lia)) as H0. rewrite Nat.add_0_r in H0. rewrite H0.
  assert (Hstep :
    match lastOutput vars with
    | Some last =>
        if negb (DeepEqual last (outs 0))
        then (Some (RetryableError notStabilized),
              ({| lastOutput := Some (outs 0); output := Some (outs 0) |},
               tr ++ [GetBucketLifecycleConfiguration input]))
        else (None, ({| lastOutput := lastOutput vars; output := Some (outs 0) |},
                     tr ++ [GetBucketLifecycleConfiguration input]))
    | None =>
        (Some (RetryableError notStabilized),
         ({| lastOutput := Some (outs 0); output := Some (outs 0) |},
          tr ++ [GetBucketLifecycleConfiguration input]))
    end
    = (Some (RetryableError notStabilized),
       ({| lastOutput := Some (outs 0); output := Some (outs 0) |},
        tr ++ [GetBucketLifecycleConfiguration input]))).
  { specialize (Hfirst ltac:(lia)). destruct (lastOutput vars) as [last|]; [|done].
    unfold DeepEqual. rewrite bool_decide_eq_false_2; [done|congruence]. }
  simpl. rewrite Hstep. simpl.
  destruct (IH (fun k => outs (S k))
              {| lastOutput := Some (outs 0); output := Some (outs 0) |}
              (tr ++ [GetBucketLifecycleConfiguration input]) (Some notStabilized))
    as (rerr' & vars' & Hrun & Hrerr).
  - intros k Hk. rewrite length_app. simpl.
    replace (length tr + 1 + k) with (length tr + S k) by lia. apply Hreads. lia.
  - intros k Hk. apply Hdiff. lia.
  - simpl. intros Hpos [=Heq]. by apply (Hdiff 0 ltac:(lia)).
  - exists (Some notStabilized), vars'. split; [|done].
    rewrite Hrun, <- app_assoc. simpl.
    destruct (decide (budget = 0)); by subst.
Qed.

(** The branch of lines 328 to 330 as it is written: when the error of the
    loop passes the timeout test, one more read is made and decides the
    result alone. *)
Lemma fallback_read_decides budget conn d tr b own err vars tr1 :
  ParseResourceID (Id d) = OK (b, own) →
  readLoop budget conn (IsNewResource d) (getInput b own) tr = (err, (vars, tr1)) →
  TimedOut err = true →
  resourceBucketLifecycleConfigurationRead budget conn d tr
  = (match (onGet conn (length tr1) (getInput b own)).2 with
     | None =>
         Returns ([], readInto d b own (onGet conn (length tr1) (getInput b own)).1)
     | Some e =>
         if negb (IsNewResource d) && ErrCodeEquals (Some e) notFoundCodes
         then Returns ([], SetId d "")
         else Returns (diag_Errorf ("error getting S3 Bucket Lifecycle Configuration ("
                                    +:+ Id d +:+ "): " +:+ Error e), d)
     end,
     tr1 ++ [GetBucketLifecycleConfiguration (getInput b own)]).
Proof.
  intros Hparse Hloop Htimeout.
  rewrite (Read_unfold _ _ _ _ _ _ _ _ _ Hparse Hloop), Htimeout.
  destruct (onGet conn (length tr1) (getInput b own)) as [out [e|]]; simpl.
  - by destruct (negb (IsNewResource d) && ErrCodeEquals (Some e) notFoundCodes).
  - by rewrite andb_false_r.
Qed.

(** C3, which the code does not meet. With the retry helper of the plugin
    SDK, which at its deadline hands back the last retryable error of the
    closure, a poll that runs out of budget without two consecutive equal
    reads does fail because of the instability: after [budget] successful
    reads (at least one) of which no two consecutive ones are equal, the
    error of the loop is the not-stabilized error of line 322, the timeout
    test of line 328 does not recognize it, no final read is made, and the
    read function returns that error as its diagnostic after exactly
    [budget] requests. *)
Theorem instability_timeout_is_reported_as_error :
  ∀ budget conn d tr b own
    (outs : nat → GetBucketLifecycleConfigurationOutput ApiRule),
    ParseResourceID (Id d) = OK (b, own) →
    (∀ rerr, retryDeadline rerr = lastErrorFirst rerr) →
    0 < budget →
    (∀ k, k < budget → onGet conn (length tr + k) (getInput b own) = (outs k, None)) →
    (∀ k, S k < budget → outs k ≠ outs (S k)) →
    resourceBucketLifecycleConfigurationRead budget conn d tr
    = (Returns (diag_Errorf ("error getting S3 Bucket Lifecycle Configuration ("
                             +:+ Id d +:+ "): " +:+ Error notStabilized), d),
       tr ++ replicate budget (GetBucketLifecycleConfiguration (getInput b own))).
Proof.
  intros budget conn d tr b own outs Hparse Hsdk Hbudget Hreads Hdiff.
  destruct (unstable_reads_reach_deadline conn (IsNewResource d) (getInput b own) budget
              outs {| lastOutput := None; output := None |} tr None Hreads Hdiff)
    as (rerr' & vars' & Hrun & Hrerr); [done|].
  destruct (decide (budget = 0)) as [|_]; [lia|]. subst rerr'.
  rewrite Hsdk in Hrun. simpl in Hrun.
  rewrite (Read_unfold _ _ _ _ _ _ _ _ _ Hparse Hrun). simpl.
  by rewrite andb_false_r.
Qed.

Lemma string_append_assoc (s1 s2 s3 : string) :
  (s1 +:+ s2) +:+ s3 = s1 +:+ s2 +:+ s3.
Proof.
  induction s1 as [|c s1 IH]; [done|]. exact (f_equal (String c) IH).
Qed.

Lemma contains_append_l (sub p s : string) : contains sub s → contains sub (p +:+ s).
Proof.
  intros (pre & post & ->). exists (p +:+ pre), post.
  by rewrite string_append_assoc.
Qed.

(** C6. Whenever the delete function sends its request, whatever the
    identity: if the service answers with NoSuchLifecycleConfiguration or
    NoSuchBucket the function returns no diagnostics; if it answers with any
    other error the function returns an error diagnostic that carries the
    identity and the error; and an identity that cannot be parsed sends no
    request at all. *)
Theorem delete_absent_is_success :
  ∀ conn d tr,
    let result := resourceBucketLifecycleConfigurationDelete conn d tr in
    (result.2 = tr ∧ ∃ e, ParseResourceID (Id d) = Failed e ∧ result.1 = diag_FromErr e)
    ∨ (∃ b own,
         ParseResourceID (Id d) = OK (b, own)
         ∧ let input := {| del_Bucket := b;
                           del_ExpectedBucketOwner := optionalString own |} in
           let err := onDelete conn (length tr) input in
           result.2 = tr ++ [DeleteBucketLifecycle input]
           ∧ (ErrCodeEquals err notFoundCodes = true → result.1 = [])
           ∧ (err = None → result.1 = [])
           ∧ (∀ e, err = Some e → ErrCodeEquals err notFoundCodes = false →
                   HasError result.1 = true
                   ∧ result.1
                     = diag_Errorf ("error deleting S3 Bucket Lifecycle Configuration ("
                                    +:+ Id d +:+ "): " +:+ Error e))).
Proof.
  intros conn d tr. cbv zeta. unfold resourceBucketLifecycleConfigurationDelete.
  destruct (ParseResourceID (Id d)) as [[b own]|e] eqn:Hparse.
  - right. exists b, own. split; [done|].
    unfold DeleteBucketLifecycleWithContext.
    destruct (onDelete conn (length tr) _) as [e|] eqn:Hdel.
    + destruct (ErrCodeEquals (Some e) notFoundCodes) eqn:Hcode; simpl.
      * split; [done|]. split; [done|]. split; [done|]. intros e' _ [=].
      * split; [done|]. split; [done|]. split; [done|]. by intros e' [= <-] _.
    + simpl. split; [done|]. split; [done|]. split; [done|]. by intros e' [=].
  - left. simpl. split; [done|]. by exists e.
Qed.

(** C8. When the expansion of the user rules fails, the create function and
    the update function send no request: they return with the trace of
    requests unchanged and the resource data untouched, and their result is
    an error diagnostic that ends with the text of the expansion's error
    (create, and update once the identity is parsed), so that whatever that
    text names, the offending rule included, is in the diagnostic. *)
Theorem expand_failure_sends_nothing :
  ∀ budget conn d tr err,
    ExpandLifecycleRules (rule d) = Failed err →
    (resourceBucketLifecycleConfigurationCreate budget conn d tr
     = (Returns (diag_Errorf ("error creating S3 Lifecycle Configuration for bucket ("
                              +:+ bucket d +:+ "): " +:+ Error err), d), tr))
    ∧ (∃ ds, resourceBucketLifecycleConfigurationUpdate budget conn d tr
             = (Returns (ds, d), tr)
             ∧ HasError ds = true
             ∧ (∀ b own, ParseResourceID (Id d) = OK (b, own) →
                  ds = diag_Errorf
                         ("error updating S3 Bucket Lifecycle Configuration rule: "
                          +:+ Error err)))
    ∧ (∀ sub, contains sub (Error err) →
         contains sub ("error creating S3 Lifecycle Configuration for bucket ("
                       +:+ bucket d +:+ "): " +:+ Error err)
         ∧ contains sub ("error updating S3 Bucket Lifecycle Configuration rule: "
                         +:+ Error err)).
Proof.
  intros budget conn d tr err Hexpand. split; [|split].
  - unfold resourceBucketLifecycleConfigurationCreate. by rewrite Hexpand.
  - unfold resourceBucketLifecycleConfigurationUpdate.
    destruct (ParseResourceID (Id d)) as [[b own]|e].
    + rewrite Hexpand. eexists. split; [done|]. split; [done|]. by intros ? ? _.
    + eexists. split; [done|]. split; [done|]. intros b own [=].
  - intros sub Hsub. split.
    + rewrite <- !string_append_assoc. by apply contains_append_l.
    + by apply contains_append_l.
Qed.

End ResourceTheorems.

(* ===================================================================== *)
(** * Tag synchronisation *)
(* ===================================================================== *)

Section TagTheorems.
Context (isAwsKey : string → bool).

Implicit Types (conn : TagConn) (tr : list TagCall) (tags : KeyValueTags)
  (oldTagsMap newTagsMap : option KeyValueTags).

Lemma positive_size_nonempty tags : bool_decide (0 < size tags) = true ↔ tags ≠ ∅.
Proof.
  rewrite bool_decide_eq_true, <- map_size_non_empty_iff. lia.
Qed.

Lemma zero_size_empty tags : bool_decide (0 < size tags) = false ↔ tags = ∅.
Proof.
  rewrite bool_decide_eq_false, <- map_size_empty_iff. lia.
Qed.

(** The system tags the bucket update computes are the stored tags whose key
    belongs to AWS. *)
Lemma Removed_IgnoreAws tags :
  Removed tags (IgnoreAws isAwsKey tags) = filter (fun kv => isAwsKey kv.1 = true) tags.
Proof.
  unfold Removed, IgnoreAws. apply map_eq. intros k. apply option_eq. intros v.
  rewrite !map_lookup_filter_Some. simpl. rewrite map_lookup_filter_None. simpl.
  split.
  - intros [Hk [Hnone|Hnot]]; [congruence|]. split; [done|].
    specialize (Hnot v Hk). by destruct (isAwsKey k).
  - intros [Hk Haws]. split; [done|]. right. intros v' _. congruence.
Qed.

Lemma union_nonempty_sizes (m1 m2 : KeyValueTags) :
  bool_decide (0 < size m1 + size m2) = true ↔ m1 ∪ m2 ≠ ∅.
Proof.
  rewrite bool_decide_eq_true. split.
  - intros Hsize Hempty.
    pose proof (map_positive_l _ _ Hempty) as ->.
    rewrite (left_id_L ∅ (∪)) in Hempty. subst m2.
    rewrite map_size_empty in Hsize. lia.
  - intros Hne. destruct (decide (size m1 + size m2 = 0)) as [Hz|]; [|lia].
    exfalso. apply Hne.
    assert (m1 = ∅) as -> by (apply map_size_empty_iff; lia).
    assert (m2 = ∅) as -> by (apply map_size_empty_iff; lia).
    by rewrite (left_id_L ∅ (∪)).
Qed.

Lemma S3BucketListTags_trace conn identifier tr :
  (S3BucketListTags conn identifier tr).2 = tr ++ [GetBucketTagging identifier].
Proof.
  unfold S3BucketListTags.
  destruct (onGetBucketTagging conn (length tr) identifier) as [ts err].
  destruct (IsAWSErr err "NoSuchTagSet"); [done|]. by destruct err.
Qed.

(** C7. After a successful listing of the stored tags [allTags], the bucket
    tag update takes as system tags the stored tags minus those that
    [IgnoreAws] keeps (that is, the stored tags with an AWS key); when the
    union of the new tags and the system tags is not empty it sends one put
    request with exactly that union, every system tag in it; otherwise, when
    there were old tags, it sends one delete request; otherwise it sends
    nothing after the listing. In particular, with a system tag "x" and a
    user tag "a" stored and no new tags, the put request holds the system
    tag alone. *)
Theorem bucket_update_preserves_system_tags :
  (∀ conn identifier oldTagsMap newTagsMap tr allTags tr1,
     S3BucketListTags conn identifier tr = ((allTags, None), tr1) →
     let sysTags := filter (fun kv => isAwsKey kv.1 = true) allTags in
     let result := S3BucketUpdateTags isAwsKey conn identifier oldTagsMap newTagsMap tr in
     tr1 = tr ++ [GetBucketTagging identifier]
     ∧ Removed allTags (IgnoreAws isAwsKey allTags) = sysTags
     ∧ (New newTagsMap ∪ sysTags ≠ ∅ →
        let Tagging := S3Tags (Merge (New newTagsMap) sysTags) in
        result = (wrapped ("error setting resource tags (" +:+ identifier +:+ "): ")
                    (onPutBucketTagging conn (length tr1) identifier Tagging),
                  tr1 ++ [PutBucketTagging identifier Tagging])
        ∧ (∀ k v, sysTags !! k = Some v → (k, v) ∈ Tagging)
        ∧ (∀ k v, (k, v) ∈ Tagging ↔ (sysTags ∪ New newTagsMap) !! k = Some v))
     ∧ (New newTagsMap ∪ sysTags = ∅ → New oldTagsMap ≠ ∅ →
        result = (wrapped ("error deleting resource tags (" +:+ identifier +:+ "): ")
                    (onDeleteBucketTagging conn (length tr1) identifier),
                  tr1 ++ [DeleteBucketTagging identifier]))
     ∧ (New newTagsMap ∪ sysTags = ∅ → New oldTagsMap = ∅ → result = (None, tr1)))
  ∧ (∀ conn identifier oldTagsMap newTagsMap tr (sys user : string),
       isAwsKey sys = true → isAwsKey user = false →
       New newTagsMap = ∅ →
       onGetBucketTagging conn (length tr) identifier = ([(sys, "x"); (user, "a")], None) →
       (S3BucketUpdateTags isAwsKey conn identifier oldTagsMap newTagsMap tr).2
       = tr ++ [GetBucketTagging identifier; PutBucketTagging identifier [(sys, "x")]]).
Proof.
  assert (Hmain : ∀ conn identifier oldTagsMap newTagsMap tr allTags tr1,
     S3BucketListTags conn identifier tr = ((allTags, None), tr1) →
     let sysTags := filter (fun kv => isAwsKey kv.1 = true) allTags in
     let result := S3BucketUpdateTags isAwsKey conn identifier oldTagsMap newTagsMap tr in
     tr1 = tr ++ [GetBucketTagging identifier]
     ∧ Removed allTags (IgnoreAws isAwsKey allTags) = sysTags
     ∧ (New newTagsMap ∪ sysTags ≠ ∅ →
        let Tagging := S3Tags (Merge (New newTagsMap) sysTags) in
        result = (wrapped ("error setting resource tags (" +:+ identifier +:+ "): ")
                    (onPutBucketTagging conn (length tr1) identifier Tagging),
                  tr1 ++ [PutBucketTagging identifier Tagging])
        ∧ (∀ k v, sysTags !! k = Some v → (k, v) ∈ Tagging)
        ∧ (∀ k v, (k, v) ∈ Tagging ↔ (sysTags ∪ New newTagsMap) !! k = Some v))
     ∧ (New newTagsMap ∪ sysTags = ∅ → New oldTagsMap ≠ ∅ →
        result = (wrapped ("error deleting resource tags (" +:+ identifier +:+ "): ")
                    (onDeleteBucketTagging conn (length tr1) identifier),
                  tr1 ++ [DeleteBucketTagging identifier]))
     ∧ (New newTagsMap ∪ sysTags = ∅ → New oldTagsMap = ∅ → result = (None, tr1))).
  { intros conn identifier oldTagsMap newTagsMap tr allTags tr1 Hlist. cbv zeta.
    pose proof (S3BucketListTags_trace conn identifier tr) as Htr.
    rewrite Hlist in Htr. simpl in Htr. subst tr1.
    split; [done|]. split; [apply Removed_IgnoreAws|].
    unfold S3BucketUpdateTags. rewrite Hlist, Removed_IgnoreAws.
    set (sysTags := filter (fun kv => isAwsKey kv.1 = true) allTags).
    split; [|split].
    - intros Hne. apply union_nonempty_sizes in Hne. rewrite Hne.
      split; [|split].
      + by destruct (onPutBucketTagging conn _ identifier _).
      + intros k v Hk. unfold S3Tags, Merge. apply elem_of_map_to_list.
        by apply lookup_union_Some_l.
      + intros k v. unfold S3Tags, Merge. apply elem_of_map_to_list.
    - intros Hempty Hold.
      assert (bool_decide (0 < size (New newTagsMap) + size sysTags) = false) as ->.
      { apply not_true_is_false. rewrite union_nonempty_sizes. by intros []. }
      apply positive_size_nonempty in Hold. rewrite Hold.
      assert (sysTags = ∅) as Hsys.
      { pose proof (map_positive_l _ _ Hempty) as Hnew. rewrite Hnew in Hempty.
        by rewrite (left_id_L ∅ (∪)) in Hempty. }
      rewrite Hsys, map_size_empty. simpl.
      by destruct (onDeleteBucketTagging conn _ identifier).
    - intros Hempty Hold.
      assert (bool_decide (0 < size (New newTagsMap) + size sysTags) = false) as ->.
      { apply not_true_is_false. rewrite union_nonempty_sizes. by intros []. }
      apply zero_size_empty in Hold. by rewrite Hold. }
  split; [exact Hmain|].
  intros conn identifier oldTagsMap newTagsMap tr sys user Hsys Huser Hnew Hget.
  assert (sys ≠ user) as Hdiff by (intros ->; congruence).
  assert (Hlist : S3BucketListTags conn identifier tr
    = ((<[user := "a"]> (<[sys := "x"]> ∅), None), tr ++ [GetBucketTagging identifier])).
  { unfold S3BucketListTags. by rewrite Hget. }
  destruct (Hmain conn identifier oldTagsMap newTagsMap tr _ _ Hlist)
    as (_ & _ & Hput & _).
  assert (Hfilter : filter (fun kv : string * string => isAwsKey kv.1 = true)
                      (<[user := "a"]> (<[sys := "x"]> (∅ : KeyValueTags)))
                    = {[sys := "x"]}).
  { rewrite map_filter_insert_False by (simpl; congruence).
    rewrite delete_id by (by rewrite lookup_insert_ne).
    rewrite map_filter_insert_True by done. by rewrite map_filter_empty. }
  rewrite Hfilter, Hnew in Hput.
  destruct Hput as [-> _].
  { rewrite (left_id_L ∅ (∪)). apply insert_non_empty. }
  simpl. unfold S3Tags, Merge. rewrite (right_id_L ∅ (∪)), map_to_list_singleton.
  by rewrite <- app_assoc.
Qed.

(** C9, which the code meets for buckets only. The bucket listing answers a
    NoSuchTagSet error with the empty tag set and no error (lines 28 to 30).
    The object listing lacks that case: it hands any error of the service, a
    NoSuchTagSet error included, back unchanged next to the empty tag set,
    and gives the tags of a successful answer (none when the answer has
    none). *)
Theorem list_tags_no_tag_set :
  (∀ conn identifier tr,
     IsAWSErr (onGetBucketTagging conn (length tr) identifier).2 "NoSuchTagSet" = true →
     S3BucketListTags conn identifier tr = ((∅, None), tr ++ [GetBucketTagging identifier]))
  ∧ (∀ conn bucket key tr e,
       (onGetObjectTagging conn (length tr) bucket key).2 = Some e →
       S3ObjectListTags conn bucket key tr
       = ((∅, Some e), tr ++ [GetObjectTagging bucket key]))
  ∧ (∀ conn bucket key tr,
       (onGetObjectTagging conn (length tr) bucket key).2 = None →
       S3ObjectListTags conn bucket key tr
       = ((S3KeyValueTags (onGetObjectTagging conn (length tr) bucket key).1, None),
          tr ++ [GetObjectTagging bucket key])).
Proof.
  split; [|split].
  - intros conn identifier tr Herr. unfold S3BucketListTags.
    destruct (onGetBucketTagging conn (length tr) identifier) as [ts err].
    simpl in Herr. by rewrite Herr.
  - intros conn bucket key tr e Herr. unfold S3ObjectListTags.
    destruct (onGetObjectTagging conn (length tr) bucket key) as [ts err].
    simpl in Herr. by subst.
  - intros conn bucket key tr Herr. unfold S3ObjectListTags.
    destruct (onGetObjectTagging conn (length tr) bucket key) as [ts err].
    simpl in Herr. by subst.
Qed.

(** C10. The object tag update never lists the stored tags. With no new tags
    and some old tags it sends one delete request for the object, whatever
    is stored; with new tags it sends one put request holding the new tags
    without those that have an AWS key, and nothing from the stored tags.
    The bucket tag update, unlike it, always starts by listing. *)
Theorem object_update_ignores_stored_tags :
  ∀ conn bucket key oldTagsMap newTagsMap tr,
    let result := S3ObjectUpdateTags isAwsKey conn bucket key oldTagsMap newTagsMap tr in
    (New newTagsMap = ∅ → New oldTagsMap ≠ ∅ →
     result = (wrapped ("error deleting resource tags (" +:+ bucket +:+ "/" +:+ key +:+ "): ")
                 (onDeleteObjectTagging conn (length tr) bucket key),
               tr ++ [DeleteObjectTagging bucket key]))
    ∧ (New newTagsMap ≠ ∅ →
       let Tagging := S3Tags (IgnoreAws isAwsKey (New newTagsMap)) in
       result = (wrapped ("error setting resource tags (" +:+ bucket +:+ "/" +:+ key +:+ "): ")
                   (onPutObjectTagging conn (length tr) bucket key Tagging),
                 tr ++ [PutObjectTagging bucket key Tagging])
       ∧ (∀ k v, (k, v) ∈ Tagging ↔ New newTagsMap !! k = Some v ∧ isAwsKey k = false))
    ∧ (∃ sent, result.2 = tr ++ sent
               ∧ (GetObjectTagging bucket key ∉ sent)
               ∧ (∀ b, GetBucketTagging b ∉ sent))
    ∧ (∃ sent, (S3BucketUpdateTags isAwsKey conn bucket oldTagsMap newTagsMap tr).2
               = tr ++ GetBucketTagging bucket :: sent).
Proof.
  intros conn bucket key oldTagsMap newTagsMap tr. cbv zeta.
  unfold S3ObjectUpdateTags. split; [|split; [|split]].
  - intros Hnew Hold. apply zero_size_empty in Hnew. rewrite Hnew.
    apply positive_size_nonempty in Hold. rewrite Hold.
    by destruct (onDeleteObjectTagging conn _ bucket key).
  - intros Hnew. apply positive_size_nonempty in Hnew. rewrite Hnew. split.
    + by destruct (onPutObjectTagging conn _ bucket key _).
    + intros k v. unfold S3Tags, IgnoreAws.
      rewrite elem_of_map_to_list, map_lookup_filter_Some. done.
  - destruct (bool_decide (0 < size (New newTagsMap))).
    + eexists [_]. split; [by destruct (onPutObjectTagging conn _ bucket key _)|].
      split; [|intros b]; by intros [=]%list_elem_of_singleton.
    + destruct (bool_decide (0 < size (New oldTagsMap))).
      * eexists [_]. split; [by destruct (onDeleteObjectTagging conn _ bucket key)|].
        split; [|intros b]; by intros [=]%list_elem_of_singleton.
      * exists []. split; [by rewrite app_nil_r|].
        split; [|intros b]; apply not_elem_of_nil.
  - unfold S3BucketUpdateTags.
    pose proof (S3BucketListTags_trace conn bucket tr) as Htr.
    destruct (S3BucketListTags conn bucket tr) as [[allTags err] tr1].
    simpl in Htr. subst tr1. destruct err as [e|].
    { by exists []. }
    destruct (bool_decide _).
    { eexists [_]. rewrite <- app_assoc.
      by destruct (onPutBucketTagging conn _ bucket _). }
    destruct (_ && _).
    { eexists [_]. rewrite <- app_assoc.
      by destruct (onDeleteBucketTagging conn _ bucket). }
    by exists [].
Qed.
End TagTheorems.

(* ===================================================================== *)
(** * Resource identity codec *)
(* ===================================================================== *)

Section CodecTheorems.
Import Codec.
Context (sep : ascii).

Lemma append_String (c : ascii) (s t : string) : String c s +:+ t = String c (s +:+ t).
Proof. reflexivity. Qed.

Lemma cutAtSeparator_append (b o : string) :
  hasSeparator sep b = false →
  cutAtSeparator sep (b +:+ String sep o) = Some (b, o).
Proof.
  induction b as [|c b IH]; intros Hb.
  - simpl. by rewrite bool_decide_eq_true_2.
  - rewrite append_String. simpl in *.
    apply orb_false_iff in Hb as [Hc Hb]. rewrite Hc. by rewrite IH.
Qed.

(** C5. For every valid bucket name and every valid owner account id, the
    empty (absent) one included, parsing the identity string built from them
    gives back exactly the two, without error. *)
Theorem parse_create_roundtrip :
  ∀ b o,
    validBucket sep b = true → validOwner sep o = true →
    ParseResourceID sep (CreateResourceID sep b o) = OK (b, o).
Proof.
  intros b o Hb Ho. unfold validBucket in Hb. unfold validOwner in Ho.
  apply andb_true_iff in Hb as [Hlen Hb]. apply andb_true_iff in Ho as [_ Ho].
  apply negb_true_iff in Hb, Ho. apply bool_decide_eq_true in Hlen.
  unfold ParseResourceID, CreateResourceID.
  rewrite cutAtSeparator_append by done. rewrite Ho.
  rewrite bool_decide_eq_false_2; [done|].
  intros ->. simpl in Hlen. lia.
Qed.
End CodecTheorems.

(* ===================================================================== *)
(** * Rule mapper *)
(* ===================================================================== *)

Section RuleMapperTheorems.
Import RuleMapper.

Lemma prefix_empty (s : string) : String.prefix EmptyString s = true.
Proof. by destruct s. Qed.

Lemma stringValue_stringPtr (s : string) : stringValue (stringPtr s) = s.
Proof. unfold stringPtr. by destruct (decide (s = EmptyString)) as [->|]. Qed.

Lemma intValue_intPtr (n : Z) : intValue (intPtr n) = n.
Proof. unfold intPtr. by destruct (decide (n = 0%Z)) as [->|]. Qed.

Lemma flatten_expandExpiration id e e' :
  expandExpiration id e = OK e' → flattenExpiration e' = e.
Proof.
  unfold expandExpiration. destruct (bool_decide _); [|done]. intros [= <-].
  destruct e as [date days marker]. unfold flattenExpiration. simpl.
  rewrite stringValue_stringPtr, intValue_intPtr. by destruct marker.
Qed.

Lemma flatten_expandAnd id a a' : expandAnd id a = OK a' → flattenAnd a' = a.
Proof.
  unfold expandAnd. destruct (negb _); [done|]. destruct (negb _); [done|].
  intros [= <-]. destruct a as [g l p t]. unfold flattenAnd. simpl.
  by rewrite !intValue_intPtr, stringValue_stringPtr, list_to_map_to_list.
Qed.

Lemma flatten_expandFilter id f f' : expandFilter id f = OK f' → flattenFilter f' = f.
Proof.
  unfold expandFilter. destruct (negb _); [done|].
  destruct f as [a g l p t]. simpl. destruct a as [a|].
  - destruct (expandAnd id a) as [a'|] eqn:Ha; [|done]. intros [= <-].
    unfold flattenFilter. simpl.
    by rewrite (flatten_expandAnd _ _ _ Ha), stringValue_stringPtr.
  - intros [= <-]. unfold flattenFilter. simpl. by rewrite stringValue_stringPtr.
Qed.

Lemma flatten_expandTransition t :
  transitionWhen (flattenTransition (expandTransition t)) = transitionWhen t
  ∧ transition_storage_class (flattenTransition (expandTransition t))
    = transition_storage_class t.
Proof.
  unfold expandTransition, transitionWhen.
  destruct (decide (transition_date t = EmptyString)) as [Hd|Hd]; simpl.
  - done.
  - by destruct (decide (transition_date t = EmptyString)).
Qed.

Lemma flatten_expandNoncurrentVersionTransition t :
  flattenNoncurrentVersionTransition (expandNoncurrentVersionTransition t) = t.
Proof. by destruct t. Qed.

Lemma filterIsEmpty_matches f o : filterIsEmpty f = true → filterMatches f o = true.
Proof.
  unfold filterIsEmpty. rewrite !andb_true_iff, !bool_decide_eq_true.
  intros [[[[Ha Hg] Hl] Hp] Ht]. unfold filterMatches.
  by rewrite Ha, Hg, Hl, Hp, Ht, prefix_empty.
Qed.

(** The objects selected survive the round trip, wherever the prefix ends
    up. *)
Lemma flatten_expandFilterAndPrefix id f p f' p' o :
  expandFilterAndPrefix id f p = OK (f', p') →
  String.prefix (stringValue p') (object_key o)
  && match flattenFilter <$> f' with Some g => filterMatches g o | None => true end
  = String.prefix p (object_key o)
    && match f with Some g => filterMatches g o | None => true end.
Proof.
  unfold expandFilterAndPrefix.
  assert (Hdefault : ∀ g : option tf_filter,
    match g with Some g' => filterMatches g' o | None => true end = true →
    (if decide (p = EmptyString)
     then OK (Some {| And := None; ObjectSizeGreaterThan := None;
                      ObjectSizeLessThan := None;
                      Filter_Prefix := Some EmptyString; Tag := None |}, None)
     else OK (None, Some p)) = OK (f', p') →
    String.prefix (stringValue p') (object_key o)
    && match flattenFilter <$> f' with Some g => filterMatches g o | None => true end
    = String.prefix p (object_key o)
      && match g with Some g' => filterMatches g' o | None => true end).
  { intros g ->. destruct (decide (p = EmptyString)) as [->|]; intros [= <- <-]; simpl.
    - unfold filterMatches. simpl. by rewrite !prefix_empty.
    - done. }
  destruct f as [g|].
  - destruct (filterIsEmpty g) eqn:Hempty.
    + apply (Hdefault (Some g)). by apply filterIsEmpty_matches.
    + destruct (expandFilter id g) as [g'|] eqn:Hg; [|done]. intros [= <- <-]. simpl.
      by rewrite (flatten_expandFilter _ _ _ Hg), stringValue_stringPtr.
  - by apply (Hdefault None).
Qed.

Lemma expandRule_SameContent r a : expandRule r = OK a → SameContent (flattenRule a) r.
Proof.
  unfold expandRule.
  destruct (expandOptionalExpiration (rule_id r) (rule_expiration r))
    as [expiration|] eqn:Hexp; [|done].
  destruct (expandFilterAndPrefix (rule_id r) (rule_filter r) (rule_prefix r))
    as [[f' p']|] eqn:Hfilter; [|done].
  intros [= <-]. unfold SameContent, flattenRule, ruleApplies. simpl.
  unfold expandOptionalExpiration in Hexp.
  split; [done|]. split; [done|]. split.
  { intros o. by apply (flatten_expandFilterAndPrefix _ _ _ _ _ _ Hfilter). }
  split.
  { destruct (rule_expiration r) as [e|]; simpl in *.
    - destruct (expandExpiration (rule_id r) e) as [e'|] eqn:He; [|done].
      injection Hexp as <-. simpl. by rewrite (flatten_expandExpiration _ _ _ He).
    - by injection Hexp as <-. }
  split.
  { rewrite <- !list_fmap_compose. apply list_fmap_ext. intros i t _.
    unfold compose. destruct (flatten_expandTransition t) as [Hw Hc].
    exact (f_equal2 pair Hw Hc). }
  split.
  { by destruct (rule_noncurrent_version_expiration r) as [[]|]. }
  split.
  { rewrite <- list_fmap_compose. rewrite <- (list_fmap_id (rule_noncurrent_version_transition r)) at 2.
    apply list_fmap_ext. intros i t _. simpl.
    apply flatten_expandNoncurrentVersionTransition. }
  by destruct (rule_abort_incomplete_multipart_upload r) as [[]|].
Qed.

(** C4. For every user rule list that the expansion accepts, flattening the
    API rules it produces gives, rule by rule and in the same order, a user
    rule with the same semantic content: the same id and status, the same
    objects selected by prefix and filter, the same expiration choice, the
    same transitions, noncurrent-version settings and abort setting. *)
Theorem flatten_expand_same_content :
  ∀ R A,
    ExpandLifecycleRules R = OK A →
    Forall2 SameContent (FlattenLifecycleRules A) R.
Proof.
  induction R as [|r R IH]; intros A Hexpand; simpl in Hexpand.
  - injection Hexpand as <-. constructor.
  - destruct (expandRule r) as [a|] eqn:Hr; [|done].
    destruct (ExpandLifecycleRules R) as [A'|] eqn:HR; [|done].
    injection Hexpand as <-. constructor.
    + by apply expandRule_SameContent.
    + by apply IH.
Qed.

(** Every validation failure of a rule is a [ValidationError] for its id. *)
Lemma expandAnd_error id a e :
  expandAnd id a = Failed e → ∃ reason, e = ValidationError id reason.
Proof.
  unfold expandAnd. repeat (destruct (negb _); [intros [= <-]; by eexists|]). done.
Qed.

Lemma expandFilter_error id f e :
  expandFilter id f = Failed e → ∃ reason, e = ValidationError id reason.
Proof.
  unfold expandFilter. destruct (negb _); [intros [= <-]; by eexists|].
  destruct (filter_and f) as [a|]; [|done].
  destruct (expandAnd id a) as [|e'] eqn:Ha; [done|]. intros [= <-].
  by apply expandAnd_error in Ha.
Qed.

Lemma expandFilterAndPrefix_error id f p e :
  expandFilterAndPrefix id f p = Failed e → ∃ reason, e = ValidationError id reason.
Proof.
  unfold expandFilterAndPrefix.
  destruct f as [g|]; [|by destruct (decide (p = EmptyString))].
  destruct (filterIsEmpty g); [by destruct (decide (p = EmptyString))|].
  destruct (expandFilter id g) as [|e'] eqn:Hg; [done|]. intros [= <-].
  by apply expandFilter_error in Hg.
Qed.

Lemma expandExpiration_error id ex e :
  expandExpiration id ex = Failed e → ∃ reason, e = ValidationError id reason.
Proof.
  unfold expandExpiration. destruct (bool_decide _); [done|].
  intros [= <-]. by eexists.
Qed.

Lemma expandRule_error r e :
  expandRule r = Failed e → ∃ reason, e = ValidationError (rule_id r) reason.
Proof.
  unfold expandRule, expandOptionalExpiration.
  destruct (rule_expiration r) as [ex|].
  - destruct (expandExpiration (rule_id r) ex) as [|e'] eqn:Hex.
    + destruct (expandFilterAndPrefix _ _ _) as [[]|e'] eqn:Hf; [done|].
      intros [= <-]. by apply expandFilterAndPrefix_error in Hf.
    + intros [= <-]. by apply expandExpiration_error in Hex.
  - destruct (expandFilterAndPrefix _ _ _) as [[]|e'] eqn:Hf; [done|].
    intros [= <-]. by apply expandFilterAndPrefix_error in Hf.
Qed.

(** The error of a failed expansion is the error of one of the rules and
    names that rule by its id. *)
Lemma ExpandLifecycleRules_error_names_rule R e :
  ExpandLifecycleRules R = Failed e →
  ∃ r, r ∈ R ∧ expandRule r = Failed e ∧ contains (rule_id r) (Error e).
Proof.
  induction R as [|r R IH]; simpl; [done|].
  destruct (expandRule r) as [a|e'] eqn:Hr.
  - destruct (ExpandLifecycleRules R) as [A'|e'']; [done|]. intros [= ->].
    destruct IH as (r' & Hin & Hfail & Hc); [done|].
    exists r'. split; [by right|done].
  - intros [= ->]. exists r. split; [by left|]. split; [done|].
    apply expandRule_error in Hr as [reason ->].
    by exists "rule ", (": " +:+ reason).
Qed.
End RuleMapperTheorems.

(* ===================================================================== *)
(** * The theorems at work on concrete runs *)
(* ===================================================================== *)

Section Examples.
#[local] Existing Instance RuleMapper.LifecycleRule_eq_dec.
#[local] Instance sdkCollaborators
  : Collaborators RuleMapper.tf_rule RuleMapper.LifecycleRule :=
  exampleCollaborators lastErrorFirst.

(** Reads R1, R2, R2 on a resource that is not new: the loop ends after the
    third read and the read function returns R2 flattened. *)
Lemma stabilization_example :
  (ParseResourceID (Id (exampleData "my-bucket," false [])) = OK ("my-bucket", "")
   ∧ readLoop 5 settlingReads false myBucket []
     = (None, ({| lastOutput := Some expireOldOutput; output := Some expireOldOutput |},
               replicate 3 (GetBucketLifecycleConfiguration myBucket))))
  ∧ ∃ i j o,
      0 ≤ i < j
      ∧ onGet settlingReads i myBucket = (o, None)
      ∧ onGet settlingReads j myBucket = (o, None)
      ∧ j = S i
      ∧ resourceBucketLifecycleConfigurationRead 5 settlingReads
          (exampleData "my-bucket," false []) []
        = (Returns ([], readInto (exampleData "my-bucket," false []) "my-bucket" "" o),
           replicate 3 (GetBucketLifecycleConfiguration myBucket)).
Proof.
  assert (Hparse : ParseResourceID (Id (exampleData "my-bucket," false []))
                   = OK ("my-bucket", "")) by reflexivity.
  assert (Hloop : readLoop 5 settlingReads false myBucket []
    = (None, ({| lastOutput := Some expireOldOutput; output := Some expireOldOutput |},
              replicate 3 (GetBucketLifecycleConfiguration myBucket))))
    by reflexivity.
  split; [by split|].
  destruct (proj1 stabilization_needs_two_equal_reads _ _ _ _ _ _ _ _ Hparse Hloop)
    as (i & j & o & Hij & Hi & Hj & _ & Hadj & _ & _ & Hread).
  exists i, j, o. repeat split; try done; try lia. apply Hadj. by left.
Defined.

(** A resource that is not new whose configuration is gone: the id is
    cleared, without diagnostics, after one read. *)
Lemma not_found_example :
  (IsNewResource (exampleData "my-bucket," false [expireOld]) = false
   ∧ ParseResourceID (Id (exampleData "my-bucket," false [expireOld]))
     = OK ("my-bucket", "")
   ∧ 0 < 3
   ∧ onGet goneReads (length ([] : list (Call RuleMapper.LifecycleRule))) myBucket
     = (emptyOutput, Some noSuchConfiguration)
   ∧ ErrCodeEquals (Some noSuchConfiguration) notFoundCodes = true)
  ∧ resourceBucketLifecycleConfigurationRead 3 goneReads
      (exampleData "my-bucket," false [expireOld]) []
    = (Returns ([], SetId (exampleData "my-bucket," false [expireOld]) ""),
       [] ++ [GetBucketLifecycleConfiguration myBucket]).
Proof.
  assert (Hparse : ParseResourceID (Id (exampleData "my-bucket," false [expireOld]))
                   = OK ("my-bucket", "")) by reflexivity.
  assert (Hcode : ErrCodeEquals (Some noSuchConfiguration) notFoundCodes = true)
    by reflexivity.
  assert (Hbudget : 0 < 3) by lia.
  split; [done|].
  exact (proj2 (proj2 not_found_on_read) 3 goneReads
           (exampleData "my-bucket," false [expireOld]) [] "my-bucket" ""
           emptyOutput noSuchConfiguration eq_refl Hparse Hbudget eq_refl Hcode).
Defined.

(** Two reads that differ use up a budget of two: the read function fails
    with the not-stabilized error and makes no third read. *)
Lemma instability_timeout_example :
  (ParseResourceID (Id (exampleData "my-bucket," false [])) = OK ("my-bucket", "")
   ∧ (∀ rerr, retryDeadline rerr = lastErrorFirst rerr)
   ∧ 0 < 2
   ∧ (∀ k, k < 2 →
        onGet unsettledReads (length ([] : list (Call RuleMapper.LifecycleRule)) + k)
          (getInput "my-bucket" "") = (settlingOutputs k, None))
   ∧ (∀ k, S k < 2 → settlingOutputs k ≠ settlingOutputs (S k)))
  ∧ resourceBucketLifecycleConfigurationRead 2 unsettledReads
      (exampleData "my-bucket," false []) []
    = (Returns (diag_Errorf ("error getting S3 Bucket Lifecycle Configuration ("
                             +:+ Id (exampleData "my-bucket," false [])
                             +:+ "): " +:+ Error notStabilized),
                exampleData "my-bucket," false []),
       [] ++ replicate 2 (GetBucketLifecycleConfiguration (getInput "my-bucket" ""))).
Proof.
  assert (Hparse : ParseResourceID (Id (exampleData "my-bucket," false []))
                   = OK ("my-bucket", "")) by reflexivity.
  assert (Hsdk : ∀ rerr, retryDeadline rerr = lastErrorFirst rerr) by reflexivity.
  assert (Hbudget : 0 < 2) by lia.
  assert (Hreads : ∀ k, k < 2 →
    onGet unsettledReads (length ([] : list (Call RuleMapper.LifecycleRule)) + k)
      (getInput "my-bucket" "") = (settlingOutputs k, None)).
  { intros [|[|k]] Hk; [reflexivity..|lia]. }
  assert (Hdiff : ∀ k, S k < 2 → settlingOutputs k ≠ settlingOutputs (S k)).
  { intros [|k] Hk; [discriminate|lia]. }
  split; [done|].
  exact (instability_timeout_is_reported_as_error 2 unsettledReads
           (exampleData "my-bucket," false []) [] "my-bucket" "" settlingOutputs
           Hparse Hsdk Hbudget Hreads Hdiff).
Defined.

(** Creating with a rule that sets both an expiration date and days: nothing
    is sent and the diagnostic names the rule. *)
Lemma expand_failure_example :
  ExpandLifecycleRules (rule (exampleData "" true [expireTwice]))
  = Failed (RuleMapper.ValidationError "expire-twice"
      "exactly one of expiration date, days and expired_object_delete_marker may be set")
  ∧ resourceBucketLifecycleConfigurationCreate 3 settlingReads
      (exampleData "" true [expireTwice]) []
    = (Returns
         (diag_Errorf
            "error creating S3 Lifecycle Configuration for bucket (my-bucket): rule expire-twice: exactly one of expiration date, days and expired_object_delete_marker may be set",
          exampleData "" true [expireTwice]), [])
  ∧ contains "expire-twice"
      "error creating S3 Lifecycle Configuration for bucket (my-bucket): rule expire-twice: exactly one of expiration date, days and expired_object_delete_marker may be set".
Proof.
  assert (Hexpand : ExpandLifecycleRules (rule (exampleData "" true [expireTwice]))
    = Failed (RuleMapper.ValidationError "expire-twice"
        "exactly one of expiration date, days and expired_object_delete_marker may be set"))
    by reflexivity.
  split; [done|].
  destruct (expand_failure_sends_nothing 3 settlingReads _ [] _ Hexpand)
    as (Hcreate & _ & Hnames).
  split; [exact Hcreate|].
  apply (Hnames "expire-twice").
  by exists "rule ",
    ": exactly one of expiration date, days and expired_object_delete_marker may be set".
Defined.

(** Deleting what is already gone succeeds; a refused delete fails. *)
Lemma delete_example :
  (ErrCodeEquals (Some noSuchConfiguration) notFoundCodes = true
   ∧ (resourceBucketLifecycleConfigurationDelete (deleteAnswers (Some noSuchConfiguration))
        (exampleData "my-bucket," false []) []).1 = [])
  ∧ (ErrCodeEquals (Some accessDenied) notFoundCodes = false
     ∧ HasError (resourceBucketLifecycleConfigurationDelete
                   (deleteAnswers (Some accessDenied))
                   (exampleData "my-bucket," false []) []).1 = true).
Proof.
  split; (split; [reflexivity|]).
  - destruct (delete_absent_is_success (deleteAnswers (Some noSuchConfiguration))
                (exampleData "my-bucket," false []) [])
      as [(_ & e & Hfail & _)|(b & own & _ & _ & Habsent & _)].
    + discriminate Hfail.
    + apply Habsent. reflexivity.
  - destruct (delete_absent_is_success (deleteAnswers (Some accessDenied))
                (exampleData "my-bucket," false []) [])
      as [(_ & e & Hfail & _)|(b & own & _ & _ & _ & _ & Hother)].
    + discriminate Hfail.
    + apply (Hother accessDenied); reflexivity.
Defined.
End Examples.

(** The same run, evaluated: two requests, and the not-stabilized error as
    the diagnostic. *)
Example deadline_as_last_error :
  @resourceBucketLifecycleConfigurationRead _ _ RuleMapper.LifecycleRule_eq_dec
    (exampleCollaborators lastErrorFirst) 2 unsettledReads
    (exampleData "my-bucket," false []) []
  = (Returns
       (diag_Errorf
          "error getting S3 Bucket Lifecycle Configuration (my-bucket,): bucket lifecycle configuration has not stablized; trying again",
        exampleData "my-bucket," false []),
     replicate 2 (GetBucketLifecycleConfiguration myBucket)).
Proof. reflexivity. Qed.

(** A system tag and a user tag stored, no new tags: the system tag alone is
    written back. *)
Lemma bucket_update_example :
  (hasAwsPrefix "aws:sys" = true ∧ hasAwsPrefix "user" = false
   ∧ New None = (∅ : KeyValueTags)
   ∧ onGetBucketTagging (storedTags [("aws:sys", "x"); ("user", "a")])
       (length ([] : list TagCall)) "my-bucket"
     = ([("aws:sys", "x"); ("user", "a")], None))
  ∧ (S3BucketUpdateTags hasAwsPrefix (storedTags [("aws:sys", "x"); ("user", "a")])
       "my-bucket" (Some {[ "user" := "a" ]}) None []).2
    = [] ++ [GetBucketTagging "my-bucket";
             PutBucketTagging "my-bucket" [("aws:sys", "x")]].
Proof.
  split; [done|].
  exact (proj2 (bucket_update_preserves_system_tags hasAwsPrefix)
           (storedTags [("aws:sys", "x"); ("user", "a")]) "my-bucket"
           (Some {[ "user" := "a" ]}) None [] "aws:sys" "user"
           eq_refl eq_refl eq_refl eq_refl).
Defined.

(** A service that answers NoSuchTagSet: the bucket lists as the empty tag
    set, the object listing fails with that error. *)
Lemma list_tags_example :
  (IsAWSErr (onGetBucketTagging noTagSetAnswers (length ([] : list TagCall)) "my-bucket").2
     "NoSuchTagSet" = true
   ∧ S3BucketListTags noTagSetAnswers "my-bucket" []
     = ((∅, None), [] ++ [GetBucketTagging "my-bucket"]))
  ∧ ((onGetObjectTagging noTagSetAnswers (length ([] : list TagCall))
        "my-bucket" "my-key").2 = Some noSuchTagSet
     ∧ IsAWSErr (Some noSuchTagSet) "NoSuchTagSet" = true
     ∧ S3ObjectListTags noTagSetAnswers "my-bucket" "my-key" []
       = ((∅, Some noSuchTagSet), [] ++ [GetObjectTagging "my-bucket" "my-key"])).
Proof.
  split.
  - split; [reflexivity|].
    exact (proj1 list_tags_no_tag_set noTagSetAnswers "my-bucket" [] eq_refl).
  - split; [reflexivity|]. split; [reflexivity|].
    exact (proj1 (proj2 list_tags_no_tag_set) noTagSetAnswers "my-bucket" "my-key" []
             noSuchTagSet eq_refl).
Defined.

(** It is not so that a NoSuchTagSet answer gives the empty tag set without
    error for buckets and for objects alike: the object listing hands the
    error back. *)
Lemma object_listing_hands_back_no_tag_set :
  ¬ ((∀ conn identifier tr,
        IsAWSErr (onGetBucketTagging conn (length tr) identifier).2 "NoSuchTagSet" = true →
        (S3BucketListTags conn identifier tr).1 = (∅, None))
     ∧ (∀ conn bucket key tr,
          IsAWSErr (onGetObjectTagging conn (length tr) bucket key).2 "NoSuchTagSet" = true →
          (S3ObjectListTags conn bucket key tr).1 = (∅, None))).
Proof.
  intros [_ Hobject].
  specialize (Hobject noTagSetAnswers "my-bucket" "my-key" [] eq_refl).
  discriminate Hobject.
Qed.

(** An object whose user tag is removed: one delete request, although a
    system tag is stored. *)
Lemma object_update_example :
  (New None = (∅ : KeyValueTags) ∧ New (Some {[ "user" := "a" ]}) ≠ (∅ : KeyValueTags))
  ∧ S3ObjectUpdateTags hasAwsPrefix (storedTags [("aws:sys", "x"); ("user", "a")])
      "my-bucket" "my-key" (Some {[ "user" := "a" ]}) None []
    = (None, [] ++ [DeleteObjectTagging "my-bucket" "my-key"]).
Proof.
  assert (Hold : New (Some {[ "user" := "a" ]}) ≠ (∅ : KeyValueTags)).
  { apply insert_non_empty. }
  split; [done|].
  exact (proj1 (object_update_ignores_stored_tags hasAwsPrefix
                  (storedTags [("aws:sys", "x"); ("user", "a")])
                  "my-bucket" "my-key" (Some {[ "user" := "a" ]}) None [])
           eq_refl Hold).
Defined.

(** The identity of a bucket without owner parses back to the bucket and the
    empty owner. *)
Lemma roundtrip_example :
  (Codec.validBucket resourceIDSeparator "my-bucket" = true
   ∧ Codec.validOwner resourceIDSeparator "" = true)
  ∧ Codec.ParseResourceID resourceIDSeparator
      (Codec.CreateResourceID resourceIDSeparator "my-bucket" "")
    = OK ("my-bucket", "").
Proof.
  split; [done|].
  exact (parse_create_roundtrip resourceIDSeparator "my-bucket" "" eq_refl eq_refl).
Defined.

(** The rule of the scenario keeps its content through expansion and
    flattening. *)
Lemma same_content_example :
  RuleMapper.ExpandLifecycleRules [expireOld] = OK (apiRules [expireOld])
  ∧ Forall2 RuleMapper.SameContent
      (RuleMapper.FlattenLifecycleRules (apiRules [expireOld])) [expireOld].
Proof.
  split; [reflexivity|].
  exact (flatten_expand_same_content [expireOld] (apiRules [expireOld]) eq_refl).
Defined.

(** The shape may differ: the rule of the scenario has no filter block, and
    comes back with a filter block holding the empty prefix. *)
Example flatten_expand_moves_prefix :
  RuleMapper.FlattenLifecycleRules (apiRules [expireOld]) ≠ [expireOld]
  ∧ RuleMapper.rule_filter
      <$> RuleMapper.FlattenLifecycleRules (apiRules [expireOld])
    = [Some {| RuleMapper.filter_and := None;
               RuleMapper.filter_object_size_greater_than := None;
               RuleMapper.filter_object_size_less_than := None;
               RuleMapper.filter_prefix := "";
               RuleMapper.filter_tag := None |}].
Proof. split; [discriminate|reflexivity]. Qed.

(* ===================================================================== *)
(** * More on the read function *)
(* ===================================================================== *)

Section ReadRuns.
Context {TfRule ApiRule : Type} `{!EqDecision ApiRule}
        `{!Collaborators TfRule ApiRule}.

Implicit Types (conn : S3Conn ApiRule) (tr : list (Call ApiRule))
  (input : GetBucketLifecycleConfigurationInput) (d : ResourceData TfRule).

(** The loop sends read requests only, one per attempt, never more than the
    budget. *)
Lemma readLoop_requests conn isNew input budget :
  ∀ vars tr rerr r vars' tr',
    RetryContext retryDeadline budget (readAttempt conn isNew input) rerr (vars, tr)
      = (r, (vars', tr')) →
    ∃ n, n ≤ budget
         ∧ tr' = tr ++ replicate n (GetBucketLifecycleConfiguration input).
Proof.
  induction budget as [|budget IH]; intros vars tr rerr r vars' tr' Hrun.
  { injection Hrun as <- <- <-. exists 0. split; [lia|]. by rewrite app_nil_r. }
  rewrite RetryContext_step in Hrun.
  pose proof (readAttempt_cases conn isNew input vars tr) as Hcases. cbv zeta in Hcases.
  destruct Hcases as [(e & _ & _ & _ & Hstep)
                     |[(e & _ & _ & Hstep)|[(_ & _ & Hstep)|(_ & _ & Hstep)]]];
    rewrite Hstep in Hrun; simpl in Hrun.
  - apply IH in Hrun as (n & Hn & ->). exists (S n). split; [lia|].
    by rewrite <- app_assoc.
  - injection Hrun as <- <- <-. exists 1. split; [lia|done].
  - apply IH in Hrun as (n & Hn & ->). exists (S n). split; [lia|].
    by rewrite <- app_assoc.
  - injection Hrun as <- <- <-. exists 1. split; [lia|done].
Qed.

(** The state of the loop after [m] successful reads of which no two
    consecutive ones are equal (and the first differs from the starting
    [lastOutput]): [m] attempts are used up and the last output is kept. *)
Lemma unstable_prefix conn isNew input m :
  ∀ budget (outs : nat → GetBucketLifecycleConfigurationOutput ApiRule) vars tr rerr,
    (∀ k, k < m → onGet conn (length tr + k) input = (outs k, None)) →
    (∀ k, S k < m → outs k ≠ outs (S k)) →
    (0 < m → lastOutput vars ≠ Some (outs 0)) →
    RetryContext retryDeadline (m + budget) (readAttempt conn isNew input) rerr (vars, tr)
    = RetryContext retryDeadline budget (readAttempt conn isNew input)
        (match m with 0 => rerr | S _ => Some notStabilized end)
        (match m with
         | 0 => vars
         | S m' => {| lastOutput := Some (outs m'); output := Some (outs m') |}
         end,
         tr ++ replicate m (GetBucketLifecycleConfiguration input)).
Proof.
  induction m as [|m IH]; intros budget outs vars tr rerr Hreads Hdiff Hfirst.
  { simpl. by rewrite app_nil_r. }
  change (S m + budget) with (S (m + budget)). rewrite RetryContext_step.
  pose proof (readAttempt_cases conn isNew input vars tr) as Hcases. cbv zeta in Hcases.
  specialize (Hreads 0 ltac:(lia)) as H0. rewrite Nat.add_0_r in H0.
  rewrite H0 in Hcases. cbn [fst] in Hcases.
  destruct Hcases as [(e & [=] & _)|[(e & [=] & _)|[(_ & _ & Hstep)|(_ & Hlast & _)]]];
    [|by destruct (Hfirst ltac:(lia))].
  rewrite Hstep. simpl.
  rewrite (IH budget (fun k => outs (S k))
             {| lastOutput := Some (outs 0); output := Some (outs 0) |}
             (tr ++ [GetBucketLifecycleConfiguration input]) (Some notStabilized)).
  - rewrite <- app_assoc. simpl. by destruct m.
  - intros k Hk. rewrite length_app. simpl.
    replace (length tr + 1 + k) with (length tr + S k) by lia. apply Hreads. lia.
  - intros k Hk. apply Hdiff. lia.
  - simpl. intros Hm [=Heq]. by apply (Hdiff 0 ltac:(lia)).
Qed.

(** On a new resource, reads that all fail with a not-found error use up
    the whole budget. *)
Lemma not_found_reads_reach_deadline conn input budget :
  ∀ vars tr rerr,
    (∀ k, k < budget →
          ∃ out e, onGet conn (length tr + k) input = (out, Some e)
                   ∧ ErrCodeEquals (Some e) notFoundCodes = true) →
    ∃ rerr' vars',
      RetryContext retryDeadline budget (readAttempt conn true input) rerr (vars, tr)
      = (Some (retryDeadline rerr'),
         (vars', tr ++ replicate budget (GetBucketLifecycleConfiguration input))).
Proof.
  induction budget as [|budget IH]; intros vars tr rerr Hreads.
  { exists rerr, vars. by rewrite app_nil_r. }
  rewrite RetryContext_step.
  destruct (Hreads 0 ltac:(lia)) as (out & e & Hget & Hcode).
  rewrite Nat.add_0_r in Hget.
  unfold readAttempt at 1, GetBucketLifecycleConfigurationWithContext.
  rewrite Hget. simpl. rewrite Hcode. simpl.
  destruct (IH {| lastOutput := lastOutput vars; output := Some out |}
              (tr ++ [GetBucketLifecycleConfiguration input]) (Some e))
    as (rerr' & vars' & Hrun).
  - intros k Hk. rewrite length_app. simpl.
    replace (length tr + 1 + k) with (length tr + S k) by lia. apply Hreads. lia.
  - exists rerr', vars'. by rewrite Hrun, <- app_assoc.
Qed.

(** The three ways the read function ends once the identity is parsed, with
    the requests it sent. *)
Lemma Read_cases budget conn d tr b own :
  ParseResourceID (Id d) = OK (b, own) →
  ∃ n, n ≤ budget + 1
       ∧ (resourceBucketLifecycleConfigurationRead budget conn d tr).2
         = tr ++ replicate n (GetBucketLifecycleConfiguration (getInput b own))
       ∧ (((resourceBucketLifecycleConfigurationRead budget conn d tr).1
           = Returns ([], SetId d "") ∧ IsNewResource d = false)
          ∨ (∃ e, (resourceBucketLifecycleConfigurationRead budget conn d tr).1
                  = Returns (diag_Errorf
                               ("error getting S3 Bucket Lifecycle Configuration ("
                                +:+ Id d +:+ "): " +:+ Error e), d))
          ∨ (∃ out, (resourceBucketLifecycleConfigurationRead budget conn d tr).1
                    = Returns ([], readInto d b own out)
                    ∧ 0 < n
                    ∧ onGet conn (length tr + n - 1) (getInput b own) = (out, None))).
Proof.
  intros Hparse.
  destruct (readLoop budget conn (IsNewResource d) (getInput b own) tr)
    as [err [vars tr1]] eqn:Hloop.
  rewrite (Read_unfold _ _ _ _ _ _ _ _ _ Hparse Hloop).
  unfold readLoop in Hloop.
  destruct (readLoop_requests _ _ _ _ _ _ _ _ _ _ Hloop) as (n & Hn & Htr).
  destruct (TimedOut err) eqn:Htimeout.
  - exists (S n). split; [lia|].
    destruct (onGet conn (length tr1) (getInput b own)) as [out e] eqn:Hget. simpl.
    assert (Htr2 : tr1 ++ [GetBucketLifecycleConfiguration (getInput b own)]
                   = tr ++ replicate (S n)
                             (GetBucketLifecycleConfiguration (getInput b own))).
    { rewrite Htr, <- app_assoc. f_equal. symmetry. apply replicate_S_end. }
    destruct (negb (IsNewResource d) && ErrCodeEquals e notFoundCodes) eqn:Hgone.
    + split; [done|]. left. split; [done|].
      apply andb_true_iff in Hgone as [Hnew _]. by apply negb_true_iff.
    + destruct e as [e|]; simpl.
      * split; [done|]. right; left. by exists e.
      * split; [done|]. right; right. exists out. split; [done|]. split; [lia|].
        replace (length tr + S n - 1) with (length tr1); [done|].
        rewrite Htr, length_app, length_replicate. lia.
  - exists n. split; [lia|].
    destruct (negb (IsNewResource d) && ErrCodeEquals err notFoundCodes) eqn:Hgone.
    + split; [done|]. left. split; [done|].
      apply andb_true_iff in Hgone as [Hnew _]. by apply negb_true_iff.
    + destruct err as [e|].
      * split; [done|]. right; left. by exists e.
      * apply readLoop_outcome in Hloop as (n' & Htr' & Hend).
        assert (n' = n) as ->.
        { apply (f_equal length) in Htr'.
          rewrite Htr, !length_app, !length_replicate in Htr'. lia. }
        destruct Hend as [(_ & [=] & _)|(Hpos & out & err & Hget & Hout & Hr)].
        rewrite Hout. split; [done|]. right; right. exists out.
        split; [done|]. split; [done|].
        destruct Hr as [[<- _]|[[rerr' [=]] _]]. done.
Qed.

(** X1. The read function never stops on a nil output: whatever the service
    answers and whatever the budget, it returns diagnostics and resource
    data. *)
Theorem read_always_returns :
  ∀ budget conn d tr,
    ∃ diags d',
      (resourceBucketLifecycleConfigurationRead budget conn d tr).1 = Returns (diags, d').
Proof.
  intros budget conn d tr.
  destruct (ParseResourceID (Id d)) as [[b own]|e] eqn:Hparse.
  - destruct (Read_cases budget conn d tr b own Hparse)
      as (n & _ & _ & [[-> _]|[[e ->]|(out & -> & _)]]); by eexists _, _.
  - unfold resourceBucketLifecycleConfigurationRead. rewrite Hparse. by eexists _, _.
Qed.

(** X2. The read function sends nothing but GetBucketLifecycleConfiguration
    requests, all for the bucket and owner parsed from the id, and at most
    one more than the budget of the loop; with an id that does not parse it
    sends nothing and reports the parse error. *)
Theorem read_sends_only_reads :
  ∀ budget conn d tr,
    match ParseResourceID (Id d) with
    | Failed e =>
        resourceBucketLifecycleConfigurationRead budget conn d tr
        = (Returns (diag_FromErr e, d), tr)
    | OK (b, own) =>
        ∃ n, n ≤ budget + 1
             ∧ (resourceBucketLifecycleConfigurationRead budget conn d tr).2
               = tr ++ replicate n (GetBucketLifecycleConfiguration (getInput b own))
    end.
Proof.
  intros budget conn d tr.
  destruct (ParseResourceID (Id d)) as [[b own]|e] eqn:Hparse.
  - destruct (Read_cases budget conn d tr b own Hparse) as (n & Hn & Htr & _).
    by exists n.
  - unfold resourceBucketLifecycleConfigurationRead. by rewrite Hparse.
Qed.

(** X3. Whatever the read function returns, it leaves the new-resource mark
    alone, returns at most one diagnostic, hands the resource data back
    untouched when it reports an error, and changes the id in one case only:
    it clears it, without diagnostics, on a resource that is not new. After
    a read without diagnostics that keeps the id, the bucket and owner
    attributes are the ones the id parses to. *)
Theorem read_keeps_identity :
  ∀ budget conn d tr diags d' tr',
    resourceBucketLifecycleConfigurationRead budget conn d tr
    = (Returns (diags, d'), tr') →
    IsNewResource d' = IsNewResource d
    ∧ length diags ≤ 1
    ∧ (diags ≠ [] → d' = d)
    ∧ (Id d' = Id d ∨ (Id d' = "" ∧ IsNewResource d = false ∧ diags = []))
    ∧ (diags = [] → Id d' ≠ "" →
       ParseResourceID (Id d) = OK (bucket d', expected_bucket_owner d')).
Proof.
  intros budget conn d tr diags d' tr' Hread.
  destruct (ParseResourceID (Id d)) as [[b own]|e] eqn:Hparse.
  - destruct (Read_cases budget conn d tr b own Hparse)
      as (n & _ & _ & [[Hres Hnew]|[[e Hres]|(out & Hres & _)]]);
      rewrite Hread in Hres; injection Hres as -> ->; simpl.
    + split; [done|]. split; [lia|]. split; [done|]. split; [by right|done].
    + split; [done|]. split; [lia|]. split; [done|]. split; [by left|done].
    + split; [done|]. split; [lia|]. split; [done|]. split; [by left|done].
  - unfold resourceBucketLifecycleConfigurationRead in Hread. rewrite Hparse in Hread.
    injection Hread as <- <- <-. simpl.
    split; [done|]. split; [lia|]. split; [done|]. split; [by left|done].
Qed.

(** X4. The loop ends at the first pair of consecutive equal reads: when the
    reads succeed, no two consecutive ones among the first [m + 1] are equal
    and read [m + 1] equals read [m], with [m + 2] attempts within the
    budget, the read function sends exactly [m + 2] requests and returns the
    last output flattened, without diagnostics. *)
Theorem read_converges_at_first_equal_pair :
  ∀ budget conn d tr b own
    (outs : nat → GetBucketLifecycleConfigurationOutput ApiRule) m,
    ParseResourceID (Id d) = OK (b, own) →
    S m < budget →
    (∀ k, k ≤ S m → onGet conn (length tr + k) (getInput b own) = (outs k, None)) →
    (∀ k, k < m → outs k ≠ outs (S k)) →
    outs m = outs (S m) →
    resourceBucketLifecycleConfigurationRead budget conn d tr
    = (Returns ([], readInto d b own (outs (S m))),
       tr ++ replicate (S (S m)) (GetBucketLifecycleConfiguration (getInput b own))).
Proof.
  intros budget conn d tr b own outs m Hparse Hbudget Hreads Hdiff Hequal.
  assert (Hloop : readLoop budget conn (IsNewResource d) (getInput b own) tr
    = (None, ({| lastOutput := Some (outs m); output := Some (outs (S m)) |},
              tr ++ replicate (S (S m))
                      (GetBucketLifecycleConfiguration (getInput b own))))).
  { unfold readLoop.
    replace budget with (S m + S (budget - S (S m))) by lia.
    rewrite (unstable_prefix _ _ _ (S m) _ outs).
    - rewrite RetryContext_step.
      unfold readAttempt at 1, GetBucketLifecycleConfigurationWithContext.
      rewrite length_app, length_replicate, (Hreads (S m)) by lia. simpl.
      unfold DeepEqual. rewrite bool_decide_eq_true_2 by (by rewrite Hequal). simpl.
      rewrite <- app_assoc. do 3 f_equal.
      symmetry. apply (replicate_S_end (S m)).
    - intros k Hk. apply Hreads. lia.
    - intros k Hk. apply Hdiff. lia.
    - done. }
  rewrite (Read_unfold _ _ _ _ _ _ _ _ _ Hparse Hloop). simpl.
  by rewrite andb_false_r.
Qed.

(** X5. On a newly created resource whose reads all fail with a not-found
    error, the read function never clears the id and never succeeds: it uses
    up the budget and reports an error, after [budget] requests, or after
    one more when the deadline counts as a timeout. *)
Theorem persistent_not_found_on_new_resource :
  ∀ budget conn d tr b own,
    IsNewResource d = true →
    ParseResourceID (Id d) = OK (b, own) →
    (∀ k, k ≤ budget →
          ∃ out e, onGet conn (length tr + k) (getInput b own) = (out, Some e)
                   ∧ ErrCodeEquals (Some e) notFoundCodes = true) →
    ∃ e n,
      budget ≤ n ≤ budget + 1
      ∧ resourceBucketLifecycleConfigurationRead budget conn d tr
        = (Returns (diag_Errorf ("error getting S3 Bucket Lifecycle Configuration ("
                                 +:+ Id d +:+ "): " +:+ Error e), d),
           tr ++ replicate n (GetBucketLifecycleConfiguration (getInput b own))).
Proof.
  intros budget conn d tr b own Hnew Hparse Hreads.
  destruct (not_found_reads_reach_deadline conn (getInput b own) budget
              {| lastOutput := None; output := None |} tr None)
    as (rerr' & vars' & Hrun).
  { intros k Hk. apply Hreads. lia. }
  assert (Hloop : readLoop budget conn (IsNewResource d) (getInput b own) tr
    = (Some (retryDeadline rerr'),
       (vars', tr ++ replicate budget
                       (GetBucketLifecycleConfiguration (getInput b own))))).
  { unfold readLoop. by rewrite Hnew. }
  rewrite (Read_unfold _ _ _ _ _ _ _ _ _ Hparse Hloop), Hnew.
  destruct (TimedOut (Some (retryDeadline rerr'))).
  - rewrite length_app, length_replicate.
    destruct (Hreads budget ltac:(lia)) as (out & e & Hget & _).
    rewrite Hget. simpl. exists e, (S budget). split; [lia|].
    rewrite <- app_assoc. do 2 f_equal. symmetry. apply replicate_S_end.
  - simpl. exists (retryDeadline rerr'), budget. split; [lia|done].
Qed.

(** X6. An error of the service that is neither a not-found error nor a
    timeout is not retried: when it answers read [m], after [m] successful
    reads of which no two consecutive ones are equal, the read function stops
    after [m + 1] requests with a diagnostic carrying the id and that error,
    and leaves the resource data untouched. *)
Theorem hard_error_stops_the_loop :
  ∀ budget conn d tr b own
    (outs : nat → GetBucketLifecycleConfigurationOutput ApiRule) m out e,
    ParseResourceID (Id d) = OK (b, own) →
    m < budget →
    (∀ k, k < m → onGet conn (length tr + k) (getInput b own) = (outs k, None)) →
    (∀ k, S k < m → outs k ≠ outs (S k)) →
    onGet conn (length tr + m) (getInput b own) = (out, Some e) →
    ErrCodeEquals (Some e) notFoundCodes = false →
    TimedOut (Some e) = false →
    resourceBucketLifecycleConfigurationRead budget conn d tr
    = (Returns (diag_Errorf ("error getting S3 Bucket Lifecycle Configuration ("
                             +:+ Id d +:+ "): " +:+ Error e), d),
       tr ++ replicate (S m) (GetBucketLifecycleConfiguration (getInput b own))).
Proof.
  intros budget conn d tr b own outs m out e Hparse Hbudget Hreads Hdiff Hget
    Hcode Htimeout.
  assert (∃ vars, readLoop budget conn (IsNewResource d) (getInput b own) tr
    = (Some e, (vars, tr ++ replicate (S m)
                              (GetBucketLifecycleConfiguration (getInput b own)))))
    as [vars Hloop].
  { unfold readLoop.
    replace budget with (m + S (budget - S m)) by lia.
    rewrite (unstable_prefix _ _ _ m _ outs) by done.
    rewrite RetryContext_step.
    unfold readAttempt at 1, GetBucketLifecycleConfigurationWithContext.
    rewrite length_app, length_replicate, Hget. simpl.
    rewrite Hcode, andb_false_r. simpl. eexists.
    rewrite <- app_assoc. do 3 f_equal. symmetry. apply replicate_S_end. }
  rewrite (Read_unfold _ _ _ _ _ _ _ _ _ Hparse Hloop), Htimeout, Hcode.
  by rewrite andb_false_r.
Qed.
End ReadRuns.

(* ===================================================================== *)
(** * More on create and update *)
(* ===================================================================== *)

Section CreateUpdateRuns.
Context {TfRule ApiRule : Type} `{!EqDecision ApiRule}
        `{!Collaborators TfRule ApiRule}.

Implicit Types (conn : S3Conn ApiRule) (tr : list (Call ApiRule))
  (d : ResourceData TfRule).

(** What a returning read does to the resource data. *)
Lemma Read_result_shape budget conn d tr diags d' tr' :
  resourceBucketLifecycleConfigurationRead budget conn d tr
  = (Returns (diags, d'), tr') →
  IsNewResource d' = IsNewResource d
  ∧ length diags ≤ 1
  ∧ (diags ≠ [] → d' = d)
  ∧ (Id d' = Id d ∨ (Id d' = "" ∧ IsNewResource d = false ∧ diags = [])).
Proof.
  intros Hread.
  destruct (ParseResourceID (Id d)) as [[b own]|e] eqn:Hparse.
  - destruct (Read_cases budget conn d tr b own Hparse)
      as (n & _ & _ & [[Hres Hnew]|[[e Hres]|(out & Hres & _)]]);
      rewrite Hread in Hres; injection Hres as -> ->; simpl.
    + split; [done|]. split; [lia|]. split; [done|]. by right.
    + split; [done|]. split; [lia|]. split; [done|]. by left.
    + split; [done|]. split; [lia|]. split; [done|]. by left.
  - unfold resourceBucketLifecycleConfigurationRead in Hread. rewrite Hparse in Hread.
    injection Hread as <- <- <-. simpl.
    split; [done|]. split; [lia|]. split; [done|]. by left.
Qed.

(** X7. Creating a resource (marked new, as the plugin SDK marks it) records
    the identity only after the write has succeeded, and never clears it.
    When the rules do not expand, nothing is sent and the resource data is
    handed back untouched. When the write, retried by [RetryOnAWSCode],
    ends with an error, the function stops there: the trace is the one the
    write left, the diagnostic carries the error of the write, and the
    resource data is the given one, so no id has been recorded. When the
    write succeeds, the id handed back is the one built from bucket and
    owner, whatever the wait and the read do afterwards. Hence an id that
    differs from the given one is the built one and tells of a write that
    succeeded. Besides, the new-resource mark is kept, at most one
    diagnostic is returned, and a create without diagnostics has expanded
    the rules, completed the write and recorded the id. *)
Theorem create_records_identity :
  ∀ budget conn d tr diags d' tr',
    IsNewResource d = true →
    resourceBucketLifecycleConfigurationCreate budget conn d tr
    = (Returns (diags, d'), tr') →
    IsNewResource d' = true
    ∧ length diags ≤ 1
    ∧ (Id d' = Id d ∨ Id d' = CreateResourceID (bucket d) (expected_bucket_owner d))
    ∧ (diags ≠ [] →
       d' = d ∨ d' = SetId d (CreateResourceID (bucket d) (expected_bucket_owner d)))
    ∧ (diags = [] →
       Id d' = CreateResourceID (bucket d) (expected_bucket_owner d)
       ∧ ∃ rules, ExpandLifecycleRules (rule d) = OK rules)
    ∧ (∀ e, ExpandLifecycleRules (rule d) = Failed e →
         diags = diag_Errorf ("error creating S3 Lifecycle Configuration for bucket ("
                              +:+ bucket d +:+ "): " +:+ Error e)
         ∧ d' = d ∧ tr' = tr)
    ∧ (∀ rules e tr1,
         ExpandLifecycleRules (rule d) = OK rules →
         RetryOnAWSCode ErrCodeNoSuchBucket
           (PutBucketLifecycleConfigurationWithContext conn
              {| put_Bucket := bucket d;
                 put_ExpectedBucketOwner := optionalString (expected_bucket_owner d);
                 put_Rules := rules |}) tr = (Some e, tr1) →
         diags = diag_Errorf ("error creating S3 Lifecycle Configuration for bucket ("
                              +:+ bucket d +:+ "): " +:+ Error e)
         ∧ d' = d ∧ tr' = tr1)
    ∧ (∀ rules tr1,
         ExpandLifecycleRules (rule d) = OK rules →
         RetryOnAWSCode ErrCodeNoSuchBucket
           (PutBucketLifecycleConfigurationWithContext conn
              {| put_Bucket := bucket d;
                 put_ExpectedBucketOwner := optionalString (expected_bucket_owner d);
                 put_Rules := rules |}) tr = (None, tr1) →
         Id d' = CreateResourceID (bucket d) (expected_bucket_owner d))
    ∧ (Id d' ≠ Id d →
       Id d' = CreateResourceID (bucket d) (expected_bucket_owner d)
       ∧ ∃ rules tr1,
           ExpandLifecycleRules (rule d) = OK rules
           ∧ RetryOnAWSCode ErrCodeNoSuchBucket
               (PutBucketLifecycleConfigurationWithContext conn
                  {| put_Bucket := bucket d;
                     put_ExpectedBucketOwner := optionalString (expected_bucket_owner d);
                     put_Rules := rules |}) tr = (None, tr1)).
Proof.
  intros budget conn d tr diags d' tr' Hnew Hcreate.
  unfold resourceBucketLifecycleConfigurationCreate in Hcreate.
  destruct (ExpandLifecycleRules (rule d)) as [rules|e] eqn:Hexpand.
  - destruct (RetryOnAWSCode _ _ tr) as [[e|] tr1] eqn:Hwrite.
    { injection Hcreate as <- <- <-. simpl.
      split; [done|]. split; [lia|]. split; [by left|]. split; [by left|].
      split; [done|]. split; [done|].
      split.
      { intros rules0 e0 tr0 [= <-] Hwrite0. rewrite Hwrite in Hwrite0.
        by injection Hwrite0 as <- <-. }
      split.
      { intros rules0 tr0 [= <-] Hwrite0. rewrite Hwrite in Hwrite0. discriminate. }
      done. }
    assert (Hrecorded : Id d' = CreateResourceID (bucket d) (expected_bucket_owner d)
                        ∧ IsNewResource d' = true
                        ∧ length diags ≤ 1
                        ∧ (diags ≠ [] →
                           d' = SetId d (CreateResourceID (bucket d)
                                           (expected_bucket_owner d)))).
    { destruct (waitForLifecycleConfigurationRulesStatus _ _ _ _ tr1) as [[e|] tr2].
      - injection Hcreate as <- <- <-. simpl.
        split; [done|]. split; [done|]. split; [lia|done].
      - apply Read_result_shape in Hcreate as (Hmark & Hlen & Hsame & Hid).
        simpl in *. split; [|split; [congruence|by split]].
        destruct Hid as [?|(_ & ? & _)]; [done|congruence]. }
    destruct Hrecorded as (Hid & Hmark & Hlen & Hsame).
    split; [done|]. split; [done|]. split; [by right|].
    split; [intros Hne; right; by apply Hsame|].
    split; [intros _; split; [done|by exists rules]|].
    split; [done|].
    split.
    { intros rules0 e0 tr0 [= <-] Hwrite0. rewrite Hwrite in Hwrite0. discriminate. }
    split; [done|].
    intros _. split; [done|]. by exists rules, tr1.
  - injection Hcreate as <- <- <-. simpl.
    split; [done|]. split; [lia|]. split; [by left|]. split; [by left|].
    split; [done|].
    split; [by intros e0 [= <-]|].
    split; [done|]. split; [done|]. done.
Qed.

(** X8. Updating never changes the identity: the id handed back is the given
    one, except that it is cleared, without diagnostics, when the read at the
    end finds the configuration gone on a resource that is not new; the
    new-resource mark is kept, at most one diagnostic is returned, and the
    resource data is handed back untouched whenever an error is reported. *)
Theorem update_keeps_identity :
  ∀ budget conn d tr diags d' tr',
    resourceBucketLifecycleConfigurationUpdate budget conn d tr
    = (Returns (diags, d'), tr') →
    IsNewResource d' = IsNewResource d
    ∧ length diags ≤ 1
    ∧ (diags ≠ [] → d' = d)
    ∧ (Id d' = Id d ∨ (Id d' = "" ∧ IsNewResource d = false ∧ diags = [])).
Proof.
  intros budget conn d tr diags d' tr' Hupdate.
  unfold resourceBucketLifecycleConfigurationUpdate in Hupdate.
  assert (Hfailed : ∀ (msg : string) (tr0 : list (Call ApiRule)),
    (Returns (diag_Errorf msg, d), tr0) = (Returns (diags, d'), tr') →
    IsNewResource d' = IsNewResource d
    ∧ length diags ≤ 1
    ∧ (diags ≠ [] → d' = d)
    ∧ (Id d' = Id d ∨ (Id d' = "" ∧ IsNewResource d = false ∧ diags = []))).
  { intros msg tr0 [= <- <- <-]. simpl.
    split; [done|]. split; [lia|]. split; [done|]. by left. }
  destruct (ParseResourceID (Id d)) as [[b own]|e]; [|by eapply Hfailed].
  destruct (ExpandLifecycleRules (rule d)) as [rules|e]; [|by eapply Hfailed].
  destruct (RetryOnAWSCode _ _ tr) as [[e|] tr1]; [by eapply Hfailed|].
  destruct (waitForLifecycleConfigurationRulesStatus _ _ _ _ tr1) as [[e|] tr2];
    [by eapply Hfailed|].
  by apply Read_result_shape in Hupdate.
Qed.
End CreateUpdateRuns.

(* ===================================================================== *)
(** * More on tag synchronisation *)
(* ===================================================================== *)

Section TagRuns.
Context (isAwsKey : string → bool).

Implicit Types (conn : TagConn) (tr : list TagCall) (tags : KeyValueTags)
  (oldTagsMap newTagsMap : option KeyValueTags).

Lemma contains_suffix (p s : string) : contains s (p +:+ s).
Proof.
  exists p, "". f_equal. induction s as [|c s IH]; [done|]. exact (f_equal (String c) IH).
Qed.

(** X9. A listing that fails with anything but NoSuchTagSet stops the bucket
    tag update before any write: only the listing request is sent, and the
    error handed back wraps the listing's error, with its AWS code still
    readable and the bucket and the error's text in the message. *)
Theorem bucket_update_stops_on_listing_error :
  ∀ conn identifier oldTagsMap newTagsMap tr ts e,
    onGetBucketTagging conn (length tr) identifier = (ts, Some e) →
    IsAWSErr (Some e) "NoSuchTagSet" = false →
    ∃ err,
      S3BucketUpdateTags isAwsKey conn identifier oldTagsMap newTagsMap tr
      = (Some err, tr ++ [GetBucketTagging identifier])
      ∧ awsCode err = awsCode e
      ∧ Error err = "error listing resource tags (" +:+ identifier +:+ "): " +:+ Error e.
Proof.
  intros conn identifier oldTagsMap newTagsMap tr ts e Hget Hcode.
  unfold S3BucketUpdateTags, S3BucketListTags. rewrite Hget, Hcode.
  eexists. split; [done|]. split; [done|]. simpl. by rewrite !string_append_assoc.
Qed.

(** X10. The bucket tag update never drops a stored system tag: in every run
    it sends the listing and at most one write; a delete request is sent only
    when the listing shows no tag with an AWS key, and a put request holds
    every listed tag with an AWS key. *)
Theorem bucket_update_never_drops_system_tags :
  ∀ conn identifier oldTagsMap newTagsMap tr,
    let allTags := (S3BucketListTags conn identifier tr).1.1 in
    ∃ sent,
      (S3BucketUpdateTags isAwsKey conn identifier oldTagsMap newTagsMap tr).2
      = tr ++ GetBucketTagging identifier :: sent
      ∧ length sent ≤ 1
      ∧ (∀ b, DeleteBucketTagging b ∈ sent →
              ∀ k v, allTags !! k = Some v → isAwsKey k = false)
      ∧ (∀ b Tagging, PutBucketTagging b Tagging ∈ sent →
              ∀ k v, allTags !! k = Some v → isAwsKey k = true → (k, v) ∈ Tagging).
Proof.
  intros conn identifier oldTagsMap newTagsMap tr. cbv zeta.
  unfold S3BucketUpdateTags.
  pose proof (S3BucketListTags_trace conn identifier tr) as Htr.
  destruct (S3BucketListTags conn identifier tr) as [[allTags err] tr1].
  simpl in Htr. subst tr1. simpl. destruct err as [e|].
  { exists []. split; [done|]. split; [simpl; lia|].
    split; intros; by apply not_elem_of_nil in H. }
  rewrite (Removed_IgnoreAws isAwsKey).
  set (sysTags := filter (fun kv => isAwsKey kv.1 = true) allTags).
  destruct (bool_decide (0 < size (New newTagsMap) + size sysTags)) eqn:Hwrite.
  - exists [PutBucketTagging identifier (S3Tags (Merge (New newTagsMap) sysTags))].
    split.
    { rewrite <- app_assoc. by destruct (onPutBucketTagging conn _ identifier _). }
    split; [simpl; lia|]. split.
    + by intros b [=]%list_elem_of_singleton.
    + intros b Tagging [= -> ->]%list_elem_of_singleton k v Hk Haws.
      unfold S3Tags, Merge. apply elem_of_map_to_list, lookup_union_Some_l.
      by apply map_lookup_filter_Some.
  - assert (sysTags = ∅) as Hsys.
    { apply not_true_iff_false in Hwrite. rewrite union_nonempty_sizes in Hwrite.
      destruct (decide (sysTags = ∅)) as [|Hne]; [done|]. exfalso. apply Hwrite.
      intros Hempty. apply Hne.
      pose proof (map_positive_l _ _ Hempty) as Hnew. rewrite Hnew in Hempty.
      by rewrite (left_id_L ∅ (∪)) in Hempty. }
    assert (Hnone : ∀ k v, allTags !! k = Some v → isAwsKey k = false).
    { intros k v Hk. destruct (isAwsKey k) eqn:Haws; [|done].
      assert (sysTags !! k = Some v) as Hin by (by apply map_lookup_filter_Some).
      by rewrite Hsys in Hin. }
    destruct (_ && _).
    + exists [DeleteBucketTagging identifier]. split.
      { rewrite <- app_assoc. by destruct (onDeleteBucketTagging conn _ identifier). }
      split; [simpl; lia|]. split.
      * intros b _. exact Hnone.
      * by intros b Tagging [=]%list_elem_of_singleton.
    + exists []. split; [done|]. split; [simpl; lia|].
      split; intros; by apply not_elem_of_nil in H.
Qed.

(** X11. On a bucket without tag set the update writes the new tags as they
    are given, keys of AWS included: after the listing answered with
    NoSuchTagSet, non-empty new tags are put unchanged. The object tag
    update, given the same new tags, puts them without the AWS keys. *)
Theorem bucket_update_writes_new_tags_as_given :
  ∀ conn bucket key oldTagsMap newTagsMap tr,
    IsAWSErr (onGetBucketTagging conn (length tr) bucket).2 "NoSuchTagSet" = true →
    New newTagsMap ≠ ∅ →
    (S3BucketUpdateTags isAwsKey conn bucket oldTagsMap newTagsMap tr).2
    = tr ++ [GetBucketTagging bucket; PutBucketTagging bucket (S3Tags (New newTagsMap))]
    ∧ (S3ObjectUpdateTags isAwsKey conn bucket key oldTagsMap newTagsMap tr).2
      = tr ++ [PutObjectTagging bucket key (S3Tags (IgnoreAws isAwsKey (New newTagsMap)))].
Proof.
  intros conn bucket key oldTagsMap newTagsMap tr Hcode Hnew. split.
  - unfold S3BucketUpdateTags, S3BucketListTags.
    destruct (onGetBucketTagging conn (length tr) bucket) as [ts err].
    simpl in Hcode. rewrite Hcode.
    change (New None) with (∅ : KeyValueTags).
    rewrite (Removed_IgnoreAws isAwsKey), map_filter_empty.
    assert (bool_decide (0 < size (New newTagsMap) + size (∅ : KeyValueTags)) = true)
      as ->.
    { apply union_nonempty_sizes. by rewrite (right_id_L ∅ (∪)). }
    unfold Merge. rewrite (left_id_L ∅ (∪)), <- app_assoc.
    by destruct (onPutBucketTagging conn _ bucket _).
  - unfold S3ObjectUpdateTags.
    apply positive_size_nonempty in Hnew. rewrite Hnew.
    by destruct (onPutObjectTagging conn _ bucket key _).
Qed.

(** X12. New tags that all have an AWS key make the object tag update put an
    empty tag set: the test for "no new tags" comes before the AWS keys are
    taken out, so the stored tags are replaced by none rather than deleted by
    a delete request. *)
Theorem object_update_puts_empty_tag_set :
  ∀ conn bucket key oldTagsMap newTagsMap tr,
    New newTagsMap ≠ ∅ →
    (∀ k v, New newTagsMap !! k = Some v → isAwsKey k = true) →
    (S3ObjectUpdateTags isAwsKey conn bucket key oldTagsMap newTagsMap tr).2
    = tr ++ [PutObjectTagging bucket key []].
Proof.
  intros conn bucket key oldTagsMap newTagsMap tr Hnew Haws.
  unfold S3ObjectUpdateTags. apply positive_size_nonempty in Hnew. rewrite Hnew.
  assert (IgnoreAws isAwsKey (New newTagsMap) = ∅) as ->.
  { unfold IgnoreAws. apply map_empty. intros k. apply map_lookup_filter_None.
    right. intros v Hk. simpl. by rewrite (Haws k v Hk). }
  unfold S3Tags. rewrite map_to_list_empty.
  by destruct (onPutObjectTagging conn _ bucket key _).
Qed.

(** X13. The object tag update sends at most one request, and none exactly
    when there are neither new nor old tags; without a request it returns no
    error. *)
Theorem object_update_sends_nothing_iff :
  ∀ conn bucket key oldTagsMap newTagsMap tr,
    let result := S3ObjectUpdateTags isAwsKey conn bucket key oldTagsMap newTagsMap tr in
    (∃ sent, result.2 = tr ++ sent ∧ length sent ≤ 1)
    ∧ (result.2 = tr ↔ New newTagsMap = ∅ ∧ New oldTagsMap = ∅)
    ∧ (result.2 = tr → result.1 = None).
Proof.
  intros conn bucket key oldTagsMap newTagsMap tr. cbv zeta.
  unfold S3ObjectUpdateTags.
  assert (Hgrow : ∀ c : TagCall, tr ++ [c] ≠ tr).
  { intros c Heq. apply (f_equal length) in Heq. rewrite length_app in Heq.
    simpl in Heq. lia. }
  destruct (bool_decide (0 < size (New newTagsMap))) eqn:Hnew.
  - apply positive_size_nonempty in Hnew.
    destruct (onPutObjectTagging conn _ bucket key _); simpl.
    + split; [eexists [_]; split; [done|simpl; lia]|]. split; [|by intros ?%Hgrow].
      split; [by intros ?%Hgrow|intros [? ?]; contradiction].
    + split; [eexists [_]; split; [done|simpl; lia]|]. split; [|by intros ?%Hgrow].
      split; [by intros ?%Hgrow|intros [? ?]; contradiction].
  - apply zero_size_empty in Hnew.
    destruct (bool_decide (0 < size (New oldTagsMap))) eqn:Hold.
    + apply positive_size_nonempty in Hold.
      destruct (onDeleteObjectTagging conn _ bucket key); simpl.
      * split; [eexists [_]; split; [done|simpl; lia]|]. split; [|by intros ?%Hgrow].
        split; [by intros ?%Hgrow|intros [? ?]; contradiction].
      * split; [eexists [_]; split; [done|simpl; lia]|]. split; [|by intros ?%Hgrow].
        split; [by intros ?%Hgrow|intros [? ?]; contradiction].
    + apply zero_size_empty in Hold. simpl.
      split; [exists []; split; [by rewrite app_nil_r|simpl; lia]|]. done.
Qed.

(** X14. An error returned by the object tag update is the wrapped error of
    the one write it sent: the AWS code of the service's error stays
    readable, and the message holds the bucket, the key and the text of the
    service's error. Without an error from the service it returns none. *)
Theorem object_update_error_wraps_service_error :
  ∀ conn bucket key oldTagsMap newTagsMap tr err,
    (S3ObjectUpdateTags isAwsKey conn bucket key oldTagsMap newTagsMap tr).1 = Some err →
    ∃ e,
      (onPutObjectTagging conn (length tr) bucket key
         (S3Tags (IgnoreAws isAwsKey (New newTagsMap))) = Some e
       ∨ onDeleteObjectTagging conn (length tr) bucket key = Some e)
      ∧ awsCode err = awsCode e
      ∧ contains (bucket +:+ "/" +:+ key) (Error err)
      ∧ contains (Error e) (Error err).
Proof.
  intros conn bucket key oldTagsMap newTagsMap tr err.
  unfold S3ObjectUpdateTags.
  destruct (bool_decide (0 < size (New newTagsMap))).
  - destruct (onPutObjectTagging conn _ bucket key _) as [e|] eqn:Hput; [|done].
    intros [= <-]. exists e. split; [by left|]. split; [done|]. simpl. split.
    + rewrite !string_append_assoc.
      exists "error setting resource tags (", ("): " +:+ Error e).
      by rewrite !string_append_assoc.
    + apply contains_suffix.
  - destruct (bool_decide (0 < size (New oldTagsMap))); [|done].
    destruct (onDeleteObjectTagging conn _ bucket key) as [e|] eqn:Hdel; [|done].
    intros [= <-]. exists e. split; [by right|]. split; [done|]. simpl. split.
    + rewrite !string_append_assoc.
      exists "error deleting resource tags (", ("): " +:+ Error e).
      by rewrite !string_append_assoc.
    + apply contains_suffix.
Qed.
End TagRuns.

(* ===================================================================== *)
(** * The further theorems at work on concrete runs *)
(* ===================================================================== *)

Section MoreExamples.
#[local] Existing Instance RuleMapper.LifecycleRule_eq_dec.
#[local] Existing Instance sdkCollaborators.

(** A read that finds the configuration gone clears the id and nothing
    else. *)
Lemma read_keeps_identity_example :
  resourceBucketLifecycleConfigurationRead 3 goneReads
    (exampleData "my-bucket," false [expireOld]) []
  = (Returns ([], SetId (exampleData "my-bucket," false [expireOld]) ""),
     [GetBucketLifecycleConfiguration myBucket])
  ∧ IsNewResource (SetId (exampleData "my-bucket," false [expireOld]) "") = false
  ∧ (Id (SetId (exampleData "my-bucket," false [expireOld]) "") = "my-bucket,"
     ∨ Id (SetId (exampleData "my-bucket," false [expireOld]) "") = "").
Proof.
  assert (Hread : resourceBucketLifecycleConfigurationRead 3 goneReads
                    (exampleData "my-bucket," false [expireOld]) []
    = (Returns ([], SetId (exampleData "my-bucket," false [expireOld]) ""),
       [GetBucketLifecycleConfiguration myBucket])) by reflexivity.
  split; [done|].
  destruct (read_keeps_identity _ _ _ _ _ _ _ Hread) as (Hmark & _ & _ & Hid & _).
  split; [exact Hmark|]. destruct Hid as [Hid|(Hid & _)]; [by left|by right].
Defined.

(** Reads R1, R2, R2: the first equal pair is the second and third read. *)
Lemma read_converges_example :
  (ParseResourceID (Id (exampleData "my-bucket," false [])) = OK ("my-bucket", "")
   ∧ 2 < 5
   ∧ (∀ k, k ≤ 2 →
        onGet settlingReads (length ([] : list (Call RuleMapper.LifecycleRule)) + k)
          myBucket = (settlingOutputs k, None))
   ∧ (∀ k, k < 1 → settlingOutputs k ≠ settlingOutputs (S k))
   ∧ settlingOutputs 1 = settlingOutputs 2)
  ∧ resourceBucketLifecycleConfigurationRead 5 settlingReads
      (exampleData "my-bucket," false []) []
    = (Returns ([], readInto (exampleData "my-bucket," false []) "my-bucket" ""
                      (settlingOutputs 2)),
       [] ++ replicate 3 (GetBucketLifecycleConfiguration myBucket)).
Proof.
  assert (Hparse : ParseResourceID (Id (exampleData "my-bucket," false []))
                   = OK ("my-bucket", "")) by reflexivity.
  assert (Hbudget : 2 < 5) by lia.
  assert (Hreads : ∀ k, k ≤ 2 →
    onGet settlingReads (length ([] : list (Call RuleMapper.LifecycleRule)) + k)
      myBucket = (settlingOutputs k, None)).
  { intros [|[|[|k]]] Hk; [reflexivity..|lia]. }
  assert (Hdiff : ∀ k, k < 1 → settlingOutputs k ≠ settlingOutputs (S k)).
  { intros [|k] Hk; [discriminate|lia]. }
  split; [done|].
  exact (read_converges_at_first_equal_pair 5 settlingReads
           (exampleData "my-bucket," false []) [] "my-bucket" "" settlingOutputs 1
           Hparse Hbudget Hreads Hdiff eq_refl).
Defined.

(** A new resource whose configuration never shows up: an error, not a
    cleared id. *)
Lemma persistent_not_found_example :
  (IsNewResource (exampleData "my-bucket," true []) = true
   ∧ ParseResourceID (Id (exampleData "my-bucket," true [])) = OK ("my-bucket", "")
   ∧ (∀ k, k ≤ 2 →
        ∃ out e,
          onGet goneReads (length ([] : list (Call RuleMapper.LifecycleRule)) + k)
            (getInput "my-bucket" "") = (out, Some e)
          ∧ ErrCodeEquals (Some e) notFoundCodes = true))
  ∧ ∃ e n,
      2 ≤ n ≤ 2 + 1
      ∧ resourceBucketLifecycleConfigurationRead 2 goneReads
          (exampleData "my-bucket," true []) []
        = (Returns (diag_Errorf ("error getting S3 Bucket Lifecycle Configuration ("
                                 +:+ Id (exampleData "my-bucket," true [])
                                 +:+ "): " +:+ Error e),
                    exampleData "my-bucket," true []),
           [] ++ replicate n (GetBucketLifecycleConfiguration (getInput "my-bucket" ""))).
Proof.
  assert (Hparse : ParseResourceID (Id (exampleData "my-bucket," true []))
                   = OK ("my-bucket", "")) by reflexivity.
  assert (Hreads : ∀ k, k ≤ 2 →
    ∃ out e,
      onGet goneReads (length ([] : list (Call RuleMapper.LifecycleRule)) + k)
        (getInput "my-bucket" "") = (out, Some e)
      ∧ ErrCodeEquals (Some e) notFoundCodes = true).
  { intros k _. by exists emptyOutput, noSuchConfiguration. }
  split; [done|].
  exact (persistent_not_found_on_new_resource 2 goneReads
           (exampleData "my-bucket," true []) [] "my-bucket" "" eq_refl Hparse Hreads).
Defined.

(** A refused read is reported at once. *)
Lemma hard_error_example :
  (ParseResourceID (Id (exampleData "my-bucket," false [])) = OK ("my-bucket", "")
   ∧ 0 < 3
   ∧ onGet refusedReads (length ([] : list (Call RuleMapper.LifecycleRule)) + 0)
       (getInput "my-bucket" "") = (emptyOutput, Some accessDenied)
   ∧ ErrCodeEquals (Some accessDenied) notFoundCodes = false
   ∧ TimedOut (Some accessDenied) = false)
  ∧ resourceBucketLifecycleConfigurationRead 3 refusedReads
      (exampleData "my-bucket," false []) []
    = (Returns (diag_Errorf ("error getting S3 Bucket Lifecycle Configuration ("
                             +:+ Id (exampleData "my-bucket," false [])
                             +:+ "): " +:+ Error accessDenied),
                exampleData "my-bucket," false []),
       [] ++ replicate 1 (GetBucketLifecycleConfiguration (getInput "my-bucket" ""))).
Proof.
  assert (Hparse : ParseResourceID (Id (exampleData "my-bucket," false []))
                   = OK ("my-bucket", "")) by reflexivity.
  assert (Hbudget : 0 < 3) by lia.
  assert (Hreads : ∀ k, k < 0 →
    onGet refusedReads (length ([] : list (Call RuleMapper.LifecycleRule)) + k)
      (getInput "my-bucket" "") = (settlingOutputs k, None)) by (intros k Hk; lia).
  assert (Hdiff : ∀ k, S k < 0 → settlingOutputs k ≠ settlingOutputs (S k))
    by (intros k Hk; lia).
  split; [done|].
  exact (hard_error_stops_the_loop 3 refusedReads (exampleData "my-bucket," false [])
           [] "my-bucket" "" settlingOutputs 0 emptyOutput accessDenied
           Hparse Hbudget Hreads Hdiff eq_refl eq_refl eq_refl).
Defined.

(** Creating the rule of the scenario: one write, two equal reads, and the
    id built from the bucket. The same create with the write refused: one
    request, the error of the write, and no id recorded. *)
Lemma create_example :
  ((IsNewResource (exampleData "" true [expireOld]) = true
    ∧ resourceBucketLifecycleConfigurationCreate 5 settlingReads
        (exampleData "" true [expireOld]) []
      = (Returns ([], readInto (SetId (exampleData "" true [expireOld]) "my-bucket,")
                        "my-bucket" "" expireOldOutput),
         [PutBucketLifecycleConfiguration
            {| put_Bucket := "my-bucket"; put_ExpectedBucketOwner := None;
               put_Rules := apiRules [expireOld] |};
          GetBucketLifecycleConfiguration myBucket;
          GetBucketLifecycleConfiguration myBucket]))
   ∧ Id (readInto (SetId (exampleData "" true [expireOld]) "my-bucket,")
           "my-bucket" "" expireOldOutput)
     = CreateResourceID (bucket (exampleData "" true [expireOld]))
         (expected_bucket_owner (exampleData "" true [expireOld])))
  ∧ ((ExpandLifecycleRules (rule (exampleData "" true [expireOld]))
      = OK (apiRules [expireOld])
      ∧ RetryOnAWSCode ErrCodeNoSuchBucket
          (PutBucketLifecycleConfigurationWithContext writeRefused
             {| put_Bucket := bucket (exampleData "" true [expireOld]);
                put_ExpectedBucketOwner :=
                  optionalString (expected_bucket_owner (exampleData "" true [expireOld]));
                put_Rules := apiRules [expireOld] |}) []
        = (Some accessDenied,
           [PutBucketLifecycleConfiguration
              {| put_Bucket := "my-bucket"; put_ExpectedBucketOwner := None;
                 put_Rules := apiRules [expireOld] |}]))
     ∧ resourceBucketLifecycleConfigurationCreate 5 writeRefused
         (exampleData "" true [expireOld]) []
       = (Returns
            (diag_Errorf ("error creating S3 Lifecycle Configuration for bucket ("
                          +:+ bucket (exampleData "" true [expireOld]) +:+ "): "
                          +:+ Error accessDenied),
             exampleData "" true [expireOld]),
          [PutBucketLifecycleConfiguration
             {| put_Bucket := "my-bucket"; put_ExpectedBucketOwner := None;
                put_Rules := apiRules [expireOld] |}])).
Proof.
  assert (Hcreate : resourceBucketLifecycleConfigurationCreate 5 settlingReads
                      (exampleData "" true [expireOld]) []
    = (Returns ([], readInto (SetId (exampleData "" true [expireOld]) "my-bucket,")
                      "my-bucket" "" expireOldOutput),
       [PutBucketLifecycleConfiguration
          {| put_Bucket := "my-bucket"; put_ExpectedBucketOwner := None;
             put_Rules := apiRules [expireOld] |};
        GetBucketLifecycleConfiguration myBucket;
        GetBucketLifecycleConfiguration myBucket])) by reflexivity.
  assert (Hnew : IsNewResource (exampleData "" true [expireOld]) = true)
    by reflexivity.
  assert (Hexpand : ExpandLifecycleRules (rule (exampleData "" true [expireOld]))
                    = OK (apiRules [expireOld])) by reflexivity.
  assert (Hwrite : RetryOnAWSCode ErrCodeNoSuchBucket
          (PutBucketLifecycleConfigurationWithContext writeRefused
             {| put_Bucket := bucket (exampleData "" true [expireOld]);
                put_ExpectedBucketOwner :=
                  optionalString (expected_bucket_owner (exampleData "" true [expireOld]));
                put_Rules := apiRules [expireOld] |}) []
        = (Some accessDenied,
           [PutBucketLifecycleConfiguration
              {| put_Bucket := "my-bucket"; put_ExpectedBucketOwner := None;
                 put_Rules := apiRules [expireOld] |}])) by reflexivity.
  split.
  - split; [done|].
    destruct (create_records_identity 5 settlingReads (exampleData "" true [expireOld])
                [] _ _ _ Hnew Hcreate)
      as (_ & _ & _ & _ & Hdone & _).
    by destruct (Hdone eq_refl) as [Hid _].
  - split; [done|].
    destruct (resourceBucketLifecycleConfigurationCreate 5 writeRefused
                (exampleData "" true [expireOld]) [])
      as [[[diags d']|] tr'] eqn:Hrefused; [|discriminate Hrefused].
    destruct (create_records_identity 5 writeRefused (exampleData "" true [expireOld])
                [] diags d' tr' Hnew Hrefused)
      as (_ & _ & _ & _ & _ & _ & Hfailed & _).
    destruct (Hfailed _ _ _ Hexpand Hwrite) as (-> & -> & ->).
    reflexivity.
Defined.

(** Updating a configuration that is gone: the write, one read, and the id
    cleared. *)
Lemma update_example :
  resourceBucketLifecycleConfigurationUpdate 3 goneReads
    (exampleData "my-bucket," false [expireOld]) []
  = (Returns ([], SetId (exampleData "my-bucket," false [expireOld]) ""),
     [PutBucketLifecycleConfiguration
        {| put_Bucket := "my-bucket"; put_ExpectedBucketOwner := None;
           put_Rules := apiRules [expireOld] |};
      GetBucketLifecycleConfiguration myBucket])
  ∧ IsNewResource (SetId (exampleData "my-bucket," false [expireOld]) "") = false.
Proof.
  assert (Hupdate : resourceBucketLifecycleConfigurationUpdate 3 goneReads
                      (exampleData "my-bucket," false [expireOld]) []
    = (Returns ([], SetId (exampleData "my-bucket," false [expireOld]) ""),
       [PutBucketLifecycleConfiguration
          {| put_Bucket := "my-bucket"; put_ExpectedBucketOwner := None;
             put_Rules := apiRules [expireOld] |};
        GetBucketLifecycleConfiguration myBucket])) by reflexivity.
  split; [done|].
  by destruct (update_keeps_identity _ _ _ _ _ _ _ Hupdate) as (Hmark & _).
Defined.
End MoreExamples.

(** A refused listing: nothing is written. *)
Lemma listing_error_example :
  (onGetBucketTagging listingRefused (length ([] : list TagCall)) "my-bucket"
   = ([], Some accessDenied)
   ∧ IsAWSErr (Some accessDenied) "NoSuchTagSet" = false)
  ∧ ∃ err,
      S3BucketUpdateTags hasAwsPrefix listingRefused "my-bucket" None
        (Some {[ "user" := "a" ]}) []
      = (Some err, [] ++ [GetBucketTagging "my-bucket"])
      ∧ awsCode err = awsCode accessDenied
      ∧ Error err
        = "error listing resource tags (" +:+ "my-bucket" +:+ "): " +:+ Error accessDenied.
Proof.
  split; [done|].
  exact (bucket_update_stops_on_listing_error hasAwsPrefix listingRefused "my-bucket"
           None (Some {[ "user" := "a" ]}) [] [] accessDenied eq_refl eq_refl).
Defined.

(** First tags of a bucket and of an object, one of them with an AWS key. *)
Lemma first_tags_example :
  (IsAWSErr (onGetBucketTagging noTagSetAnswers (length ([] : list TagCall))
               "my-bucket").2 "NoSuchTagSet" = true
   ∧ New (Some {[ "aws:x" := "1" ]}) ≠ (∅ : KeyValueTags))
  ∧ (S3BucketUpdateTags hasAwsPrefix noTagSetAnswers "my-bucket" None
       (Some {[ "aws:x" := "1" ]}) []).2
    = [] ++ [GetBucketTagging "my-bucket";
             PutBucketTagging "my-bucket" (S3Tags (New (Some {[ "aws:x" := "1" ]})))].
Proof.
  assert (Hnew : New (Some {[ "aws:x" := "1" ]}) ≠ (∅ : KeyValueTags)).
  { apply insert_non_empty. }
  split; [done|].
  exact (proj1 (bucket_update_writes_new_tags_as_given hasAwsPrefix noTagSetAnswers
                  "my-bucket" "my-key" None (Some {[ "aws:x" := "1" ]}) []
                  eq_refl Hnew)).
Defined.

(** New tags with AWS keys only: the object gets an empty tag set. *)
Lemma empty_put_example :
  (New (Some {[ "aws:x" := "1" ]}) ≠ (∅ : KeyValueTags)
   ∧ ∀ k v, New (Some {[ "aws:x" := "1" ]}) !! k = Some v → hasAwsPrefix k = true)
  ∧ (S3ObjectUpdateTags hasAwsPrefix (storedTags [("user", "a")]) "my-bucket" "my-key"
       (Some {[ "user" := "a" ]}) (Some {[ "aws:x" := "1" ]}) []).2
    = [] ++ [PutObjectTagging "my-bucket" "my-key" []].
Proof.
  assert (Hnew : New (Some {[ "aws:x" := "1" ]}) ≠ (∅ : KeyValueTags)).
  { apply insert_non_empty. }
  assert (Haws : ∀ k v, New (Some {[ "aws:x" := "1" ]}) !! k = Some v →
                        hasAwsPrefix k = true).
  { intros k v Hk. change (New (Some ({[ "aws:x" := "1" ]} : KeyValueTags)))
      with ({[ "aws:x" := "1" ]} : KeyValueTags) in Hk.
    apply lookup_singleton_Some in Hk as [<- _]. reflexivity. }
  split; [done|].
  exact (object_update_puts_empty_tag_set hasAwsPrefix (storedTags [("user", "a")])
           "my-bucket" "my-key" (Some {[ "user" := "a" ]}) (Some {[ "aws:x" := "1" ]})
           [] Hnew Haws).
Defined.

(** A refused write of object tags comes back wrapped, code and all. *)
Lemma wrapped_error_example :
  (S3ObjectUpdateTags hasAwsPrefix tagWritesRefused "my-bucket" "my-key" None
     (Some {[ "user" := "a" ]}) []).1
  = Some (Errorf_w "error setting resource tags (my-bucket/my-key): " accessDenied)
  ∧ ∃ e,
      awsCode (Errorf_w "error setting resource tags (my-bucket/my-key): " accessDenied)
      = awsCode e
      ∧ contains (Error e)
          (Error (Errorf_w "error setting resource tags (my-bucket/my-key): "
                    accessDenied)).
Proof.
  assert (Hrun : (S3ObjectUpdateTags hasAwsPrefix tagWritesRefused "my-bucket" "my-key"
                    None (Some {[ "user" := "a" ]}) []).1
    = Some (Errorf_w "error setting resource tags (my-bucket/my-key): " accessDenied)).
  { unfold S3ObjectUpdateTags.
    rewrite (proj2 (positive_size_nonempty (New (Some {[ "user" := "a" ]}))))
      by apply insert_non_empty.
    reflexivity. }
  split; [exact Hrun|].
  destruct (object_update_error_wraps_service_error hasAwsPrefix tagWritesRefused
              "my-bucket" "my-key" None (Some {[ "user" := "a" ]}) [] _ Hrun)
    as (e & _ & Hcode & _ & Htext).
  exists e. split; [exact Hcode|exact Htext].
Defined.
